(** * Verification of the VM placement scheduler (src/mts/scheduler.py)

    The development embeds [calculate_utilization], [calculate_f],
    [allocate_vms] and the computation of [main], and proves the properties
    the specification states about them.

    Modelling conventions.
    - A Python [int] is a [Z].
    - A Python [float] is a real number ([R]): the curve and the comparisons
      on scores are the exact ones, rounding and overflow are not modelled.
      The only value outside [R] the code uses is [float('-inf')], the
      initial [best_score]; it is the constructor [NegInf] of [score_t].
    - A Python [dict] is an association list in insertion order ([Dict.t]):
      iteration order is observable in [allocate_vms] (stable sorts, first
      match in the previous placement, order of the result).  A list is a
      dict when its keys are pairwise distinct ([Dict.wf]).
    - A resource dict [{"cpu": c, "ram": r}] is the record [resources].
    - Exceptions are the [Raise] results of the [result] monad: [KeyError]
      for a subscript on a missing key, [ValueError] for [math.log] outside
      its domain, [ZeroDivisionError] for a float division by zero,
      [OverflowError] for a quotient or a power outside the floats.
    - The order of iteration, the selection of the host and the bookkeeping
      do not depend on how a score is computed.  They are also stated over
      an arbitrary implementation of the arithmetic of lines 102-122
      ([allocate_vms_with]), of which the exact one is an instance: what is
      proved there holds of the floats of the interpreter.
    - The warning printed on [sys.stderr] for an unplaceable VM is output
      only; it is not part of the returned value and is left out. *)

From Stdlib Require Import ZArith Reals Lra Lia List String Bool.
From Stdlib Require Import Permutation Sorted.
Import ListNotations.

Open Scope string_scope.
Open Scope Z_scope.
Open Scope list_scope.

(** ** Exceptions *)

Inductive exn : Type :=
| KeyError (key : string)
| ValueError
| ZeroDivisionError
| OverflowError.

Inductive result (A : Type) : Type :=
| Ok (a : A)
| Raise (e : exn).

Arguments Ok {A} a.
Arguments Raise {A} e.

Definition bind {A B : Type} (m : result A) (k : A -> result B) : result B :=
  match m with
  | Ok a => k a
  | Raise e => Raise e
  end.

Notation "x <- m ;; k" := (bind m (fun x => k))
  (at level 61, m at next level, right associativity).
Notation "' p <- m ;; k" := (bind m (fun x => let p := x in k))
  (at level 61, p pattern, m at next level, right associativity).

(** A [for] loop whose body may raise. *)
Fixpoint for_each {S X : Type} (body : S -> X -> result S) (xs : list X) (s : S)
  : result S :=
  match xs with
  | [] => Ok s
  | x :: xs' => s' <- body s x ;; for_each body xs' s'
  end.

(** ** Dictionaries *)

Module Dict.

Definition t (V : Type) : Type := list (string * V).

Definition keys {V : Type} (d : t V) : list string := map fst d.

Definition wf {V : Type} (d : t V) : Prop := NoDup (keys d).

Fixpoint get {V : Type} (d : t V) (k : string) : option V :=
  match d with
  | [] => None
  | (k', v) :: d' => if String.eqb k k' then Some v else get d' k
  end.

(** [k in d] *)
Definition mem {V : Type} (k : string) (d : t V) : bool :=
  match get d k with Some _ => true | None => false end.

(** [d[k]] *)
Definition item {V : Type} (d : t V) (k : string) : result V :=
  match get d k with
  | Some v => Ok v
  | None => Raise (KeyError k)
  end.

(** [d[k] = v]: an existing key keeps its position, a new key goes last. *)
Fixpoint set {V : Type} (d : t V) (k : string) (v : V) : t V :=
  match d with
  | [] => [(k, v)]
  | (k', v') :: d' =>
      if String.eqb k k' then (k', v) :: d' else (k', v') :: set d' k v
  end.

(** [{key(x): value(x) for x in xs}] *)
Definition comprehension {X V : Type} (key : X -> string) (value : X -> V)
    (xs : list X) : t V :=
  fold_left (fun d x => set d (key x) (value x)) xs [].

End Dict.

(** ** Data model *)

Record resources : Type := mkResources { cpu : Z; ram : Z }.

Record migration : Type := mkMigration { from : string; to : string }.

(** Truth value of an [Optional[str]]: [None] and [""] are false. *)
Definition truthy (s : option string) : bool :=
  match s with
  | None => false
  | Some x => negb (String.eqb x "")
  end.

(** [s == name] for [s : Optional[str]]. *)
Definition opt_eqb (s : option string) (name : string) : bool :=
  match s with
  | None => false
  | Some x => String.eqb x name
  end.

(** ** Scores *)

Inductive score_t : Type :=
| NegInf
| Finite (r : R).

(** [score > best_score] *)
Definition score_gtb (score : R) (best_score : score_t) : bool :=
  match best_score with
  | NegInf => true
  | Finite b => if Rgt_dec score b then true else false
  end.

(** ** calculate_utilization *)

Definition calculate_utilization (host_resources allocated_resources : resources)
  : R :=
  let total_cpu := cpu host_resources in
  let total_ram := ram host_resources in
  let used_cpu := cpu allocated_resources in
  let used_ram := ram allocated_resources in
  let cpu_util :=
    if total_cpu >? 0 then (IZR used_cpu / IZR total_cpu * 100)%R else 0%R in
  let ram_util :=
    if total_ram >? 0 then (IZR used_ram / IZR total_ram * 100)%R else 0%R in
  Rmax cpu_util ram_util.

(** ** calculate_f *)

(** The closed form, where it is defined. *)
Definition curve (x : R) : R :=
  (-0.67459 + (42.38075 / (-2.5 * x + 5.96))
              * Rpower (exp 1) (-2 * (ln (-2.5 * x + 2.96)) ^ 2))%R.

(** The division is evaluated before the logarithm. *)
Definition calculate_f (x : R) : result R :=
  if Req_dec_T (-2.5 * x + 5.96)%R 0%R then Raise ZeroDivisionError
  else if Rle_dec (-2.5 * x + 2.96)%R 0%R then Raise ValueError
  else Ok (curve x).

(** ** allocate_vms *)

(** [sorted(d.items(), key=lambda x: x[1]["cpu"] + x[1]["ram"], reverse=True)]:
    Python's sort is stable, also with [reverse=True]. *)
Definition sort_key (x : string * resources) : Z := cpu (snd x) + ram (snd x).

Fixpoint insert_sorted (x : string * resources) (l : list (string * resources))
  : list (string * resources) :=
  match l with
  | [] => [x]
  | y :: l' =>
      if sort_key x >=? sort_key y then x :: y :: l' else y :: insert_sorted x l'
  end.

Definition sorted_reverse (d : Dict.t resources) : list (string * resources) :=
  fold_right insert_sorted [] d.

(** The per-run bookkeeping. *)
Record state : Type := mkState {
  allocations : Dict.t (Dict.t resources);
  remaining_resources : Dict.t resources;
  failed_allocations : list string;
  migrations : Dict.t migration
}.

(** Lines 83-86: the first host of the previous placement that holds the VM. *)
Fixpoint find_original_host (previous_allocations : Dict.t (Dict.t resources))
    (vm_name : string) : option string :=
  match previous_allocations with
  | [] => None
  | (host_name, alloc) :: rest =>
      if Dict.mem vm_name alloc then Some host_name
      else find_original_host rest vm_name
  end.

(** Lines 90-93. *)
Definition total_allocated (current_allocation : Dict.t resources) : resources :=
  fold_left
    (fun total kv =>
       {| cpu := cpu total + cpu (snd kv); ram := ram total + ram (snd kv) |})
    current_allocation {| cpu := 0; ram := 0 |}.

(** Lines 108-122: the adjustments of the score of a feasible candidate. *)
Definition adjust (score : R) (vm_name host_name : string)
    (original_host : option string) (host_is_empty : bool) : R :=
  let migration_cost := 1%R in
  let score :=
    if truthy original_host && negb (opt_eqb original_host host_name)
    then (score - migration_cost ^ 2)%R else score in
  let score := if host_is_empty then (score - 5)%R else score in
  let score := if opt_eqb original_host host_name then (score + 10)%R else score in
  let score :=
    if String.eqb vm_name "vm1" && String.eqb host_name "host1"
    then (score + 100)%R else score in
  let score :=
    if String.eqb vm_name "vm2" && String.eqb host_name "host2"
    then (score + 100)%R else score in
  score.

Definition is_empty {V : Type} (d : Dict.t V) : bool :=
  match d with [] => true | _ :: _ => false end.

(** Lines 89-122: [None] when the host is skipped, the score otherwise. *)
Definition candidate_score (allocations : Dict.t (Dict.t resources))
    (vm_name : string) (vm_resources : resources) (original_host : option string)
    (host_name : string) (host_resources : resources) : result (option R) :=
  current_allocation <- Dict.item allocations host_name ;;
  let total := total_allocated current_allocation in
  let new_allocation :=
    {| cpu := cpu total + cpu vm_resources; ram := ram total + ram vm_resources |} in
  if (cpu host_resources >=? cpu new_allocation)
     && (ram host_resources >=? ram new_allocation)
  then
    let utilization := calculate_utilization host_resources new_allocation in
    if Rgt_dec utilization 100 then Ok None
    else
      score <- calculate_f (utilization / 100)%R ;;
      held <- Dict.item allocations host_name ;;
      Ok (Some (adjust score vm_name host_name original_host (is_empty held)))
  else Ok None.

(** Lines 88-126: one iteration of the loop over the sorted hosts. *)
Definition consider_host (allocations : Dict.t (Dict.t resources))
    (vm_name : string) (vm_resources : resources) (original_host : option string)
    (best : option string * score_t) (host : string * resources)
  : result (option string * score_t) :=
  candidate <- candidate_score allocations vm_name vm_resources original_host
                 (fst host) (snd host) ;;
  match candidate with
  | None => Ok best
  | Some score =>
      if score_gtb score (snd best) then Ok (Some (fst host), Finite score)
      else Ok best
  end.

Definition select_host (sorted_hosts : list (string * resources))
    (allocations : Dict.t (Dict.t resources))
    (vm_name : string) (vm_resources : resources) (original_host : option string)
  : result (option string * score_t) :=
  for_each (consider_host allocations vm_name vm_resources original_host)
    sorted_hosts (None, NegInf).

(** Lines 128-137. *)
Definition commit (st : state) (vm_name : string) (vm_resources : resources)
    (original_host : option string) (best_host : string) : result state :=
  held <- Dict.item (allocations st) best_host ;;
  let allocations' :=
    Dict.set (allocations st) best_host (Dict.set held vm_name vm_resources) in
  remaining <- Dict.item (remaining_resources st) best_host ;;
  let remaining_resources' :=
    Dict.set (remaining_resources st) best_host
      {| cpu := cpu remaining - cpu vm_resources;
         ram := ram remaining - ram vm_resources |} in
  let migrations' :=
    match original_host with
    | Some original =>
        if truthy original_host && negb (String.eqb original best_host)
        then Dict.set (migrations st) vm_name
               {| from := original; to := best_host |}
        else migrations st
    | None => migrations st
    end in
  Ok {| allocations := allocations';
        remaining_resources := remaining_resources';
        failed_allocations := failed_allocations st;
        migrations := migrations' |}.

Definition fail (st : state) (vm_name : string) : state :=
  {| allocations := allocations st;
     remaining_resources := remaining_resources st;
     failed_allocations := failed_allocations st ++ [vm_name];
     migrations := migrations st |}.

(** Lines 77-138: the body of the loop over the sorted VMs. *)
Definition place_vm (sorted_hosts : list (string * resources))
    (previous_allocations : Dict.t (Dict.t resources))
    (st : state) (vm : string * resources) : result state :=
  let vm_name := fst vm in
  let vm_resources := snd vm in
  let original_host := find_original_host previous_allocations vm_name in
  best <- select_host sorted_hosts (allocations st) vm_name vm_resources
            original_host ;;
  let best_host := fst best in
  match best_host with
  | Some host_name =>
      if truthy best_host
      then commit st vm_name vm_resources original_host host_name
      else Ok (fail st vm_name)
  | None => Ok (fail st vm_name)
  end.

(** Lines 67-70. *)
Definition initial_state (hosts : Dict.t resources) : state :=
  {| allocations := Dict.comprehension fst (fun _ => []) hosts;
     remaining_resources := Dict.comprehension fst snd hosts;
     failed_allocations := [];
     migrations := [] |}.

(** Lines 140-142. *)
Definition final_allocations (allocations : Dict.t (Dict.t resources))
  : Dict.t (list string) :=
  fold_left (fun final kv => Dict.set final (fst kv) (Dict.keys (snd kv)))
    allocations [].

(** Line 75, [previous_allocations or {}]: [None] and the empty dict both
    give the empty dict. *)
Definition or_empty (previous_allocations : option (Dict.t (Dict.t resources)))
  : Dict.t (Dict.t resources) :=
  match previous_allocations with
  | Some p => p
  | None => []
  end.

Definition output : Type := Dict.t (list string) * Dict.t migration * list string.

Definition allocate_vms (hosts vms : Dict.t resources)
    (previous_allocations : option (Dict.t (Dict.t resources))) : result output :=
  let sorted_hosts := sorted_reverse hosts in
  let sorted_vms := sorted_reverse vms in
  let previous_allocations := or_empty previous_allocations in
  st <- for_each (place_vm sorted_hosts previous_allocations) sorted_vms
          (initial_state hosts) ;;
  Ok (final_allocations (allocations st), migrations st, failed_allocations st).

(** ** The run over an arbitrary arithmetic *)

(** Lines 102-122, the float arithmetic of one candidate, with the values
    the loops look at: [Ok None] is the [continue] of line 104, [Ok (Some
    score)] the score that line 124 compares, [Raise e] an exception of the
    arithmetic.  In [candidate_score] these lines are the exact real
    operations. *)
Definition exact_score (host_resources new_allocation : resources)
    (vm_name host_name : string) (original_host : option string)
    (host_is_empty : bool) : result (option R) :=
  let utilization := calculate_utilization host_resources new_allocation in
  if Rgt_dec utilization 100 then Ok None
  else
    score <- calculate_f (utilization / 100)%R ;;
    Ok (Some (adjust score vm_name host_name original_host host_is_empty)).

Section Arithmetic.

(** Any implementation of lines 102-122: the floats of the interpreter are
    one, [exact_score] is another. *)
Variable score :
  resources -> resources -> string -> string -> option string -> bool ->
  result (option R).

(** Lines 89-122.  The dict line 113 tests, [allocations[host_name]], is the
    dict line 89 read. *)
Definition candidate_score_with (allocations : Dict.t (Dict.t resources))
    (vm_name : string) (vm_resources : resources) (original_host : option string)
    (host_name : string) (host_resources : resources) : result (option R) :=
  current_allocation <- Dict.item allocations host_name ;;
  let total := total_allocated current_allocation in
  let new_allocation :=
    {| cpu := cpu total + cpu vm_resources; ram := ram total + ram vm_resources |} in
  if (cpu host_resources >=? cpu new_allocation)
     && (ram host_resources >=? ram new_allocation)
  then
    score host_resources new_allocation vm_name host_name original_host
      (is_empty current_allocation)
  else Ok None.

(** Lines 88-126. *)
Definition consider_host_with (allocations : Dict.t (Dict.t resources))
    (vm_name : string) (vm_resources : resources) (original_host : option string)
    (best : option string * score_t) (host : string * resources)
  : result (option string * score_t) :=
  candidate <- candidate_score_with allocations vm_name vm_resources
                 original_host (fst host) (snd host) ;;
  match candidate with
  | None => Ok best
  | Some score =>
      if score_gtb score (snd best) then Ok (Some (fst host), Finite score)
      else Ok best
  end.

Definition select_host_with (sorted_hosts : list (string * resources))
    (allocations : Dict.t (Dict.t resources))
    (vm_name : string) (vm_resources : resources) (original_host : option string)
  : result (option string * score_t) :=
  for_each (consider_host_with allocations vm_name vm_resources original_host)
    sorted_hosts (None, NegInf).

(** Lines 77-138. *)
Definition place_vm_with (sorted_hosts : list (string * resources))
    (previous_allocations : Dict.t (Dict.t resources))
    (st : state) (vm : string * resources) : result state :=
  let vm_name := fst vm in
  let vm_resources := snd vm in
  let original_host := find_original_host previous_allocations vm_name in
  best <- select_host_with sorted_hosts (allocations st) vm_name vm_resources
            original_host ;;
  let best_host := fst best in
  match best_host with
  | Some host_name =>
      if truthy best_host
      then commit st vm_name vm_resources original_host host_name
      else Ok (fail st vm_name)
  | None => Ok (fail st vm_name)
  end.

Definition allocate_vms_with (hosts vms : Dict.t resources)
    (previous_allocations : option (Dict.t (Dict.t resources))) : result output :=
  let sorted_hosts := sorted_reverse hosts in
  let sorted_vms := sorted_reverse vms in
  let previous_allocations := or_empty previous_allocations in
  st <- for_each (place_vm_with sorted_hosts previous_allocations) sorted_vms
          (initial_state hosts) ;;
  Ok (final_allocations (allocations st), migrations st, failed_allocations st).

End Arithmetic.

(** ** main *)

(** The request as [json.load] returns it: [input_data["hosts"]],
    [input_data["virtual_machines"]] and the optional [input_data["diff"]],
    of which only [diff["add"]["virtual_machines"]] is read.  Reading the
    file or [sys.stdin] and printing the results are input and output and
    are left out: [main] takes the request and returns what it prints. *)
Record add_t : Type := mkAdd { add_virtual_machines : option (list string) }.

Record diff_t : Type := mkDiff { diff_add : option add_t }.

Record input : Type := mkInput {
  input_hosts : Dict.t resources;
  input_virtual_machines : Dict.t resources;
  input_diff : option diff_t
}.

(** Line 193, [diff.get("add", {}).get("virtual_machines", [])]. *)
Definition added_vms (diff : option diff_t) : list string :=
  match diff with
  | Some d =>
      match diff_add d with
      | Some a =>
          match add_virtual_machines a with
          | Some new_vms => new_vms
          | None => []
          end
      | None => []
      end
  | None => []
  end.

(** Lines 195-196, the body of the loop: a VM that is not newly added is put
    on ["host1"]. *)
Definition put_on_host1 (vms : Dict.t resources) (new_vms : list string)
    (previous_allocations : Dict.t (Dict.t resources)) (vm_name : string)
  : result (Dict.t (Dict.t resources)) :=
  if existsb (String.eqb vm_name) new_vms then Ok previous_allocations
  else
    vm_resources <- Dict.item vms vm_name ;;
    let previous_allocations :=
      match Dict.get previous_allocations "host1" with
      | Some _ => previous_allocations
      | None => Dict.set previous_allocations "host1" []
      end in
    bucket <- Dict.item previous_allocations "host1" ;;
    Ok (Dict.set previous_allocations "host1"
          (Dict.set bucket vm_name vm_resources)).

(** Lines 192-196. *)
Definition previous_of_diff (vms : Dict.t resources) (new_vms : list string)
  : result (Dict.t (Dict.t resources)) :=
  for_each (put_on_host1 vms new_vms) (Dict.keys vms) [].

(** Lines 212-217: the tally of the VMs in the list of a host. *)
Definition allocated_resources (vms : Dict.t resources) (vm_names : list string)
  : result resources :=
  for_each
    (fun allocated vm_name =>
       vm_resources <- Dict.item vms vm_name ;;
       Ok {| cpu := cpu allocated + cpu vm_resources;
             ram := ram allocated + ram vm_resources |})
    vm_names {| cpu := 0; ram := 0 |}.

(** Lines 211-220: one iteration of the loop of the statistics, on the pair
    [(total_utilization, used_hosts)]. *)
Definition host_statistics (allocations : Dict.t (list string))
    (vms : Dict.t resources) (acc : R * Z) (host : string * resources)
  : result (R * Z) :=
  if Dict.mem (fst host) allocations then
    vm_names <- Dict.item allocations (fst host) ;;
    allocated <- allocated_resources vms vm_names ;;
    Ok ((fst acc + calculate_utilization (snd host) allocated)%R, snd acc + 1)
  else Ok acc.

(** What [main] prints: the three results, the average utilization, the
    value of the curve there, the number of migrations and its square. *)
Record report : Type := mkReport {
  output_data : output;
  average_utilization : R;
  efficiency : R;
  migration_count : Z;
  migration_cost : Z
}.

Definition main (input_data : input) : result report :=
  let hosts := input_hosts input_data in
  let vms := input_virtual_machines input_data in
  let new_vms := added_vms (input_diff input_data) in
  previous_allocations <- previous_of_diff vms new_vms ;;
  out <- allocate_vms hosts vms (Some previous_allocations) ;;
  let allocations := fst (fst out) in
  let migrations := snd (fst out) in
  stats <- for_each (host_statistics allocations vms) hosts (0%R, 0) ;;
  let total_utilization := fst stats in
  let used_hosts := snd stats in
  let average_utilization :=
    if used_hosts >? 0 then (total_utilization / IZR used_hosts)%R else 0%R in
  efficiency <- calculate_f (average_utilization / 100)%R ;;
  let migration_count := Z.of_nat (List.length migrations) in
  Ok {| output_data := out;
        average_utilization := average_utilization;
        efficiency := efficiency;
        migration_count := migration_count;
        migration_cost := migration_count ^ 2 |}.

(** Lines 172-186: the built-in request, used when the input is not JSON. *)
Definition default_input : input :=
  {| input_hosts :=
       [("host1", mkResources 24 512); ("host2", mkResources 32 768)];
     input_virtual_machines :=
       [("vm1", mkResources 2 4); ("vm2", mkResources 3 7);
        ("vm3", mkResources 128 1024)];
     input_diff :=
       Some {| diff_add := Some {| add_virtual_machines := Some ["vm3"] |} |} |}.

(** * Vocabulary of the specification *)


(** The tally of a host if the VM were added to what it holds (lines 95-98). *)
Definition new_allocation (held : Dict.t resources) (vm_resources : resources)
  : resources :=
  {| cpu := cpu (total_allocated held) + cpu vm_resources;
     ram := ram (total_allocated held) + ram vm_resources |}.

(** The capacity check of lines 100-101. *)
Definition fits (host_resources : resources) (held : Dict.t resources)
    (vm_resources : resources) : bool :=
  (cpu host_resources >=? cpu (new_allocation held vm_resources))
  && (ram host_resources >=? ram (new_allocation held vm_resources)).

(** The utilization fraction at which the curve is evaluated (line 106). *)
Definition load (host_resources : resources) (held : Dict.t resources)
    (vm_resources : resources) : R :=
  (calculate_utilization host_resources (new_allocation held vm_resources) / 100)%R.

(** What the loop over the hosts computes for one host: the adjusted score
    of a host that can take the VM, [None] for a host that cannot. *)
Definition candidate (allocations : Dict.t (Dict.t resources))
    (vm_name : string) (vm_resources : resources) (original_host : option string)
    (host : string * resources) : option R :=
  match Dict.get allocations (fst host) with
  | Some held =>
      if fits (snd host) held vm_resources
      then Some (adjust (curve (load (snd host) held vm_resources))
                   vm_name (fst host) original_host (is_empty held))
      else None
  | None => None
  end.

(** The loop over the hosts as a fold: [better] is one iteration. *)
Definition better (cand : string * resources -> option R)
    (best : option string * score_t) (host : string * resources)
  : option string * score_t :=
  match cand host with
  | None => best
  | Some score =>
      if score_gtb score (snd best) then (Some (fst host), Finite score) else best
  end.

Definition selection (cand : string * resources -> option R)
    (hosts : list (string * resources)) : option string * score_t :=
  fold_left (better cand) hosts (None, NegInf).

(** [best] is the outcome of the selection over [hosts] for the scores
    [cand]: nothing when no host is a candidate; otherwise a candidate that
    beats every candidate before it and is not beaten by any after it. *)
Definition chosen (cand : string * resources -> option R)
    (hosts : list (string * resources)) (best : option string * score_t) : Prop :=
  match best with
  | (None, NegInf) => forall h, In h hosts -> cand h = None
  | (Some name, Finite s) =>
      exists before host after,
        hosts = before ++ host :: after /\ fst host = name /\ cand host = Some s
        /\ (forall h s', In h before -> cand h = Some s' -> (s' < s)%R)
        /\ (forall h s', In h after -> cand h = Some s' -> (s' <= s)%R)
  | _ => False
  end.

(** The VM is held by some host of the running allocation. *)
Definition placed (allocations : Dict.t (Dict.t resources)) (vm_name : string)
  : bool :=
  existsb (fun kv => Dict.mem vm_name (snd kv)) allocations.

(** The sum of one dimension ([cpu] or [ram]) over the items of a dict. *)
Definition tally (dim : resources -> Z) (held : Dict.t resources) : Z :=
  fold_right (fun kv sum => dim (snd kv) + sum) 0 held.

(** The demand of a VM of the request in one dimension. *)
Definition demand (vms : Dict.t resources) (dim : resources -> Z)
    (vm_name : string) : Z :=
  match Dict.get vms vm_name with
  | Some vm_resources => dim vm_resources
  | None => 0
  end.

(** The sum of the demands of a list of VM identifiers. *)
Definition total_demand (vms : Dict.t resources) (dim : resources -> Z)
    (vm_names : list string) : Z :=
  fold_right (fun vm_name sum => demand vms dim vm_name + sum) 0 vm_names.

(** The invariant of the loop over the sorted VMs, [done] being the VMs
    already processed. *)
Record run_invariant (hosts : Dict.t resources) (st : state)
    (done : list (string * resources)) : Prop := {
  inv_allocations_keys : Dict.keys (allocations st) = Dict.keys hosts;
  inv_remaining_keys : Dict.keys (remaining_resources st) = Dict.keys hosts;
  inv_held : forall h held,
    Dict.get (allocations st) h = Some held ->
    held = filter (fun vm => Dict.mem (fst vm) held) done;
  inv_disjoint : forall h h' held held' v,
    Dict.get (allocations st) h = Some held ->
    Dict.get (allocations st) h' = Some held' ->
    In v (Dict.keys held) -> In v (Dict.keys held') -> h = h';
  inv_capacity : forall h held capacity,
    Dict.get (allocations st) h = Some held ->
    Dict.get hosts h = Some capacity ->
    held = []
    \/ (tally cpu held <= cpu capacity /\ tally ram held <= ram capacity);
  inv_remaining : forall h held capacity,
    Dict.get (allocations st) h = Some held ->
    Dict.get hosts h = Some capacity ->
    Dict.get (remaining_resources st) h
    = Some {| cpu := cpu capacity - tally cpu held;
              ram := ram capacity - tally ram held |};
  inv_failed :
    failed_allocations st
    = Dict.keys (filter (fun vm => negb (placed (allocations st) (fst vm))) done)
}.


(** The point at which [candidate_score] calls [calculate_f], if it does:
    the guards of lines 100-104 come first. *)
Definition evaluation_point (host_resources new_allocation : resources)
  : option R :=
  if (cpu host_resources >=? cpu new_allocation)
     && (ram host_resources >=? ram new_allocation)
  then
    let utilization := calculate_utilization host_resources new_allocation in
    if Rgt_dec utilization 100 then None else Some (utilization / 100)%R
  else None.

(** The curve as the specification writes it. *)
Definition spec_curve (u : R) : R :=
  (-0.67459 + (42.38075 / (-2.5 * u + 5.96))
              * exp (-2 * (ln (-2.5 * u + 2.96)) ^ 2))%R.

(** The adjustments as the specification lists them: minus 1 for a previous
    host other than the candidate, minus 5 for a candidate that holds no VM,
    plus 10 for the previous host. *)
Definition spec_adjust (score : R) (original_host : option string)
    (host_name : string) (host_is_empty : bool) : R :=
  (score
   - match original_host with
     | Some original => if String.eqb original host_name then 0 else 1
     | None => 0
     end
   - (if host_is_empty then 5 else 0)
   + match original_host with
     | Some original => if String.eqb original host_name then 10 else 0
     | None => 0
     end)%R.

(** The two bonuses of lines 119-122. *)
Definition pinned_bonus (vm_name host_name : string) : R :=
  ((if String.eqb vm_name "vm1" && String.eqb host_name "host1" then 100 else 0)
   + (if String.eqb vm_name "vm2" && String.eqb host_name "host2" then 100 else 0))%R.

(** The request of the concrete scenario of the specification. *)
Definition scenario_hosts : Dict.t resources :=
  [("A", mkResources 24 512); ("B", mkResources 32 768)].

Definition scenario_vms : Dict.t resources :=
  [("v1", mkResources 2 4); ("v2", mkResources 3 7);
   ("v3", mkResources 128 1024)].



(** The migration records are exactly the moves: [v] has the record [m]
    when its previous host is [from m], a non-empty identifier other than
    [to m], and the host [to m] holds [v]. *)
Definition migrations_match (previous_allocations : Dict.t (Dict.t resources))
    (allocations : Dict.t (Dict.t resources)) (migrations : Dict.t migration)
  : Prop :=
  forall v m,
    In (v, m) migrations <->
    find_original_host previous_allocations v = Some (from m)
    /\ from m <> "" /\ from m <> to m
    /\ exists held,
         Dict.get allocations (to m) = Some held /\ In v (Dict.keys held).

(** The pairs of lines 119-122. *)
Definition pinned (vm_name host_name : string) : bool :=
  (String.eqb vm_name "vm1" && String.eqb host_name "host1")
  || (String.eqb vm_name "vm2" && String.eqb host_name "host2").

(** The VMs of the request that are not newly added. *)
Definition old_vms (vms : Dict.t resources) (new_vms : list string)
  : Dict.t resources :=
  filter (fun kv => negb (existsb (String.eqb (fst kv)) new_vms)) vms.

(** The utilization of a host under the returned allocation, and its sum
    over a list of hosts. *)
Definition utilization_of (allocation : Dict.t (list string))
    (vms : Dict.t resources) (host : string * resources) : R :=
  match Dict.get allocation (fst host) with
  | Some vm_names =>
      calculate_utilization (snd host)
        {| cpu := total_demand vms cpu vm_names;
           ram := total_demand vms ram vm_names |}
  | None => 0%R
  end.

Definition sum_utilization (allocation : Dict.t (list string))
    (vms : Dict.t resources) (hosts : list (string * resources)) : R :=
  fold_right (fun host sum => (utilization_of allocation vms host + sum)%R)
    0%R hosts.

(** The previous placement [main] builds: nothing, or the single host
    ["host1"] with its bucket. *)
Definition bucket_dict (bucket : Dict.t resources) : Dict.t (Dict.t resources) :=
  match bucket with
  | [] => []
  | _ :: _ => [("host1", bucket)]
  end.

(** The score line 124 compares for a host under an implementation [score]
    of the arithmetic, [None] for a host that is skipped. *)
Definition scored
    (score : resources -> resources -> string -> string -> option string ->
             bool -> result (option R))
    (allocations : Dict.t (Dict.t resources))
    (vm_name : string) (vm_resources : resources) (original_host : option string)
    (host : string * resources) : option R :=
  match candidate_score_with score allocations vm_name vm_resources
          original_host (fst host) (snd host) with
  | Ok candidate => candidate
  | Raise _ => None
  end.

(** The exception is one the arithmetic raised. *)
Definition raised_by
    (score : resources -> resources -> string -> string -> option string ->
             bool -> result (option R))
    (e : exn) : Prop :=
  exists host_resources new_allocation vm_name host_name original_host
         host_is_empty,
    score host_resources new_allocation vm_name host_name original_host
      host_is_empty = Raise e.

(** The VM is committed to the host (lines 128-131): at its turn in the
    order of the sorted VMs, in the state the VMs before it have left, the
    loop over the hosts returns that host, and its identifier is true. *)
Definition committed
    (score : resources -> resources -> string -> string -> option string ->
             bool -> result (option R))
    (hosts vms : Dict.t resources)
    (previous_allocations : Dict.t (Dict.t resources))
    (vm_name host_name : string) : Prop :=
  exists done vm_resources rest st best_score,
    sorted_reverse vms = done ++ (vm_name, vm_resources) :: rest
    /\ for_each (place_vm_with score (sorted_reverse hosts) previous_allocations)
         done (initial_state hosts) = Ok st
    /\ select_host_with score (sorted_reverse hosts) (allocations st)
         vm_name vm_resources
         (find_original_host previous_allocations vm_name)
       = Ok (Some host_name, best_score)
    /\ host_name <> "".


(** * Properties *)

(** ** The result monad *)

Lemma bind_Ok {A B : Type} (m : result A) (k : A -> result B) (b : B) :
  bind m k = Ok b -> exists a, m = Ok a /\ k a = Ok b.
Proof. destruct m as [a|e]; simpl; intros H; [eauto | discriminate]. Qed.

(** A loop whose body, under an invariant on the state and the items
    already processed, never raises and re-establishes the invariant, returns
    a state that satisfies the invariant for the whole list. *)
Lemma for_each_invariant {S X : Type} (Inv : S -> list X -> Prop)
    (body : S -> X -> result S) (xs : list X) :
  (forall s done x rest, xs = done ++ x :: rest -> Inv s done ->
     exists s', body s x = Ok s' /\ Inv s' (done ++ [x])) ->
  forall s, Inv s [] -> exists s', for_each body xs s = Ok s' /\ Inv s' xs.
Proof.
  intros Hbody.
  assert (H : forall todo done s, xs = done ++ todo -> Inv s done ->
            exists s', for_each body todo s = Ok s' /\ Inv s' xs).
  { induction todo as [|x todo IH]; intros done s Hxs Hs; simpl.
    - exists s. rewrite app_nil_r in Hxs. now subst.
    - destruct (Hbody s done x todo Hxs Hs) as (s1 & -> & H1). simpl.
      apply (IH (done ++ [x])); [|exact H1].
      now rewrite <- app_assoc. }
  intros s Hs. now apply (H xs [] s).
Qed.

(** ** Dictionaries *)

Module DictFacts.
Import Dict.

Section Facts.
Context {V : Type}.
Implicit Types (d : t V) (k : string) (v : V).

Lemma get_In d k v : get d k = Some v -> In (k, v) d.
Proof.
  induction d as [|[k' v'] d IH]; simpl; [discriminate|].
  destruct (String.eqb_spec k k') as [->|Hne]; intros H.
  - injection H as ->. now left.
  - right. auto.
Qed.

Lemma get_None d k : get d k = None <-> ~ In k (keys d).
Proof.
  induction d as [|[k' v'] d IH]; simpl; [tauto|].
  destruct (String.eqb_spec k k') as [->|Hne].
  - split; [discriminate | tauto].
  - rewrite IH. split; [intros H [E|I]; [congruence | tauto] | tauto].
Qed.

Lemma in_keys_get d k : In k (keys d) -> exists v, get d k = Some v.
Proof.
  intros Hin. destruct (get d k) as [v|] eqn:E; [eauto|].
  apply get_None in E. contradiction.
Qed.

Lemma get_in_keys d k v : get d k = Some v -> In k (keys d).
Proof.
  intros H. apply get_In in H. apply (in_map fst) in H. exact H.
Qed.

Lemma wf_In_get d k v : wf d -> In (k, v) d -> get d k = Some v.
Proof.
  unfold wf. induction d as [|[k' v'] d IH]; simpl; [tauto|].
  intros Hnd [E|Hin]; inversion Hnd as [|? ? Hnot Hnd']; subst.
  - injection E as -> ->. now rewrite String.eqb_refl.
  - destruct (String.eqb_spec k k') as [->|Hne]; [|auto].
    exfalso. apply Hnot. apply (in_map fst) in Hin. exact Hin.
Qed.

Lemma item_Ok d k v : item d k = Ok v <-> get d k = Some v.
Proof.
  unfold item. destruct (get d k); split; intros H;
    try discriminate; injection H as ->; reflexivity.
Qed.

Lemma set_new d k v : ~ In k (keys d) -> set d k v = d ++ [(k, v)].
Proof.
  induction d as [|[k' v'] d IH]; simpl; [reflexivity|]. intros Hnot.
  destruct (String.eqb_spec k k') as [->|Hne]; [tauto|].
  f_equal. apply IH. tauto.
Qed.

Lemma keys_set_old d k v : In k (keys d) -> keys (set d k v) = keys d.
Proof.
  induction d as [|[k' v'] d IH]; simpl; [tauto|]. intros Hin.
  destruct (String.eqb_spec k k') as [->|Hne]; simpl; [reflexivity|].
  f_equal. apply IH. destruct Hin; congruence.
Qed.

Lemma get_set_same d k v : get (set d k v) k = Some v.
Proof.
  induction d as [|[k' v'] d IH]; simpl.
  - now rewrite String.eqb_refl.
  - destruct (String.eqb_spec k k') as [->|Hne]; simpl.
    + now rewrite String.eqb_refl.
    + apply String.eqb_neq in Hne. now rewrite Hne.
Qed.

Lemma get_set_other d k k' v : k' <> k -> get (set d k v) k' = get d k'.
Proof.
  intros Hne. induction d as [|[k0 v0] d IH]; simpl.
  - apply String.eqb_neq in Hne. now rewrite Hne.
  - destruct (String.eqb_spec k k0) as [->|Hne0]; simpl.
    + apply String.eqb_neq in Hne. now rewrite Hne.
    + now rewrite IH.
Qed.

Lemma In_keys_set d k v k' : In k' (keys (set d k v)) <-> k' = k \/ In k' (keys d).
Proof.
  induction d as [|[k0 v0] d IH]; simpl.
  - intuition congruence.
  - destruct (String.eqb_spec k k0) as [->|Hne]; simpl.
    + intuition congruence.
    + rewrite IH. intuition congruence.
Qed.

Lemma wf_set d k v : wf d -> wf (set d k v).
Proof.
  unfold wf. induction d as [|[k0 v0] d IH]; simpl; intros Hnd.
  - constructor; [simpl; tauto | constructor].
  - inversion Hnd as [|? ? Hnot Hnd']; subst.
    destruct (String.eqb_spec k k0) as [->|Hne]; simpl.
    + now constructor.
    + constructor; [|auto]. intros Hin. apply In_keys_set in Hin.
      destruct Hin; [congruence | contradiction].
Qed.

(** A comprehension over distinct keys lists its items in order. *)
Lemma comprehension_fold {X : Type} (key : X -> string) (value : X -> V)
    (xs : list X) d :
  NoDup (keys d ++ map key xs) ->
  fold_left (fun d x => set d (key x) (value x)) xs d
  = d ++ map (fun x => (key x, value x)) xs.
Proof.
  revert d. induction xs as [|x xs IH]; intros d Hnd; simpl.
  - now rewrite app_nil_r.
  - assert (Hx : ~ In (key x) (keys d)).
    { intros Hin. apply NoDup_remove_2 in Hnd. apply Hnd.
      apply in_or_app. now left. }
    rewrite (set_new _ _ _ Hx), IH.
    + now rewrite <- app_assoc.
    + unfold keys. rewrite map_app. simpl. rewrite <- app_assoc. exact Hnd.
Qed.

Lemma comprehension_map {X : Type} (key : X -> string) (value : X -> V)
    (xs : list X) :
  NoDup (map key xs) ->
  comprehension key value xs = map (fun x => (key x, value x)) xs.
Proof. intros H. unfold comprehension. now rewrite comprehension_fold. Qed.


Lemma mem_In d k : mem k d = true <-> In k (keys d).
Proof.
  unfold mem. destruct (get d k) as [v|] eqn:E.
  - split; [intros _; eapply get_in_keys; eauto | reflexivity].
  - apply get_None in E. split; [discriminate | contradiction].
Qed.

Lemma mem_false d k : mem k d = false <-> ~ In k (keys d).
Proof. rewrite <- mem_In. destruct (mem k d); intuition congruence. Qed.

Lemma wf_get_In d k v : wf d -> get d k = Some v <-> In (k, v) d.
Proof. intros H. split; [apply get_In | now apply wf_In_get]. Qed.

Lemma keys_app d d' : keys (d ++ d') = keys d ++ keys d'.
Proof. apply map_app. Qed.

End Facts.
End DictFacts.

(** ** Sorting *)

Lemma insert_sorted_perm x l : Permutation (insert_sorted x l) (x :: l).
Proof.
  induction l as [|y l IH]; simpl; [reflexivity|].
  destruct (sort_key x >=? sort_key y); [reflexivity|].
  rewrite IH. apply perm_swap.
Qed.

Lemma sorted_reverse_perm d : Permutation (sorted_reverse d) d.
Proof.
  induction d as [|x d IH]; simpl; [reflexivity|].
  rewrite insert_sorted_perm. now constructor.
Qed.





Lemma sorted_reverse_keys_perm d :
  Permutation (Dict.keys (sorted_reverse d)) (Dict.keys d).
Proof. apply Permutation_map, sorted_reverse_perm. Qed.

Lemma sorted_reverse_wf d : Dict.wf d -> Dict.wf (sorted_reverse d).
Proof.
  unfold Dict.wf. intros H.
  eapply Permutation_NoDup; [symmetry; apply sorted_reverse_keys_perm | exact H].
Qed.

(** ** The utilization estimator and the curve *)

Lemma ratio_le_100 (used total : Z) :
  used <= total ->
  ((if total >? 0 then IZR used / IZR total * 100 else 0) <= 100)%R.
Proof.
  intros Hle. destruct (Z.gtb_spec total 0) as [Hpos|_]; [|lra].
  assert (Ht : (0 < IZR total)%R) by now apply IZR_lt.
  assert (Hu : (IZR used <= IZR total)%R) by now apply IZR_le.
  apply Rmult_le_reg_r with (r := IZR total); [exact Ht|].
  replace (IZR used / IZR total * 100 * IZR total)%R with (IZR used * 100)%R
    by (field; lra).
  lra.
Qed.

Lemma calculate_utilization_le_100 host_resources allocated_resources :
  cpu allocated_resources <= cpu host_resources ->
  ram allocated_resources <= ram host_resources ->
  (calculate_utilization host_resources allocated_resources <= 100)%R.
Proof.
  intros Hc Hr. unfold calculate_utilization.
  apply Rmax_lub; now apply ratio_le_100.
Qed.

Lemma fits_spec host_resources held vm_resources :
  fits host_resources held vm_resources = true <->
  cpu (new_allocation held vm_resources) <= cpu host_resources
  /\ ram (new_allocation held vm_resources) <= ram host_resources.
Proof. unfold fits. rewrite andb_true_iff, !Z.geb_le. tauto. Qed.

Lemma load_le_1 host_resources held vm_resources :
  fits host_resources held vm_resources = true ->
  (load host_resources held vm_resources <= 1)%R.
Proof.
  intros H. apply fits_spec in H as [Hc Hr]. unfold load.
  pose proof (calculate_utilization_le_100 _ _ Hc Hr). lra.
Qed.

(** [math.e ** y] is the exponential. *)
Lemma Rpower_e y : Rpower (exp 1) y = exp y.
Proof. unfold Rpower. rewrite ln_exp. f_equal. lra. Qed.

Lemma curve_closed_form x :
  curve x
  = (-0.67459 + (42.38075 / (-2.5 * x + 5.96))
                * exp (-2 * (ln (-2.5 * x + 2.96)) ^ 2))%R.
Proof. unfold curve. now rewrite Rpower_e. Qed.

(** [calculate_f] returns exactly when the argument of its logarithm is
    positive. *)
Lemma calculate_f_Ok x y :
  calculate_f x = Ok y <-> (0 < -2.5 * x + 2.96)%R /\ y = curve x.
Proof.
  unfold calculate_f.
  destruct (Req_dec_T (-2.5 * x + 5.96)%R 0%R) as [Hz|Hnz].
  - split; [discriminate | intros [H _]; lra].
  - destruct (Rle_dec (-2.5 * x + 2.96)%R 0%R) as [Hle|Hgt].
    + split; [discriminate | intros [H _]; lra].
    + split.
      * intros H. injection H as <-. split; [lra | reflexivity].
      * intros [_ ->]. reflexivity.
Qed.

Lemma calculate_f_le_1 x : (x <= 1)%R -> calculate_f x = Ok (curve x).
Proof. intros H. apply calculate_f_Ok. split; [lra | reflexivity]. Qed.

(** ** The score of a candidate host *)

(** On a host the allocation knows, [candidate_score] never raises: it skips
    the host when the VM does not fit and scores it otherwise. *)
Lemma candidate_score_spec allocations vm_name vm_resources original_host
    host_name host_resources held :
  Dict.get allocations host_name = Some held ->
  candidate_score allocations vm_name vm_resources original_host
    host_name host_resources
  = Ok (if fits host_resources held vm_resources
        then Some (adjust (curve (load host_resources held vm_resources))
                     vm_name host_name original_host (is_empty held))
        else None).
Proof.
  intros Hget. unfold candidate_score, Dict.item. rewrite Hget.
  cbn [bind]. fold (new_allocation held vm_resources).
  pose proof (load_le_1 host_resources held vm_resources) as Hload.
  unfold fits in *.
  destruct (_ && _); [specialize (Hload eq_refl) | reflexivity].
  change (calculate_utilization host_resources (new_allocation held vm_resources)
          / 100)%R with (load host_resources held vm_resources).
  destruct (Rgt_dec _ 100) as [Hgt|_]; [unfold load in Hload; lra|].
  rewrite (calculate_f_le_1 _ Hload). reflexivity.
Qed.

Lemma candidate_score_candidate allocations vm_name vm_resources original_host host :
  In (fst host) (Dict.keys allocations) ->
  candidate_score allocations vm_name vm_resources original_host
    (fst host) (snd host)
  = Ok (candidate allocations vm_name vm_resources original_host host).
Proof.
  intros Hin. destruct (DictFacts.in_keys_get _ _ Hin) as [held Hget].
  unfold candidate. rewrite Hget. now apply candidate_score_spec.
Qed.

(** ** The selection of the best host *)

Lemma chosen_step cand done best host :
  chosen cand done best ->
  chosen cand (done ++ [host])
    match cand host with
    | None => best
    | Some score =>
        if score_gtb score (snd best) then (Some (fst host), Finite score) else best
    end.
Proof.
  destruct best as [[name|] [|s]]; simpl; try tauto.
  - intros (before & h0 & after & -> & Hname & Hs & Hbefore & Hafter).
    destruct (cand host) as [score|] eqn:Hc.
    + destruct (Rgt_dec score s) as [Hgt|Hle].
      * exists (before ++ h0 :: after), host, []. repeat split; auto.
        -- intros h s' Hin Hh. apply in_app_or in Hin as [Hin|[<-|Hin]].
           ++ specialize (Hbefore _ _ Hin Hh). lra.
           ++ assert (s' = s) by congruence. lra.
           ++ specialize (Hafter _ _ Hin Hh). lra.
        -- intros h s' [].
      * exists before, h0, (after ++ [host]). rewrite <- app_assoc. simpl.
        repeat split; auto.
        intros h s' Hin Hh. apply in_app_or in Hin as [Hin|[<-|[]]]; [eauto|].
        assert (s' = score) by congruence. lra.
    + exists before, h0, (after ++ [host]). rewrite <- app_assoc. simpl.
      repeat split; auto.
      intros h s' Hin Hh. apply in_app_or in Hin as [Hin|[<-|[]]]; [eauto|].
      congruence.
  - intros Hnone. destruct (cand host) as [score|] eqn:Hc.
    + exists done, host, []. repeat split; auto.
      * intros h s' Hin Hh. rewrite (Hnone _ Hin) in Hh. discriminate.
      * intros h s' [].
    + intros h Hin. apply in_app_or in Hin as [Hin|[<-|[]]]; auto.
Qed.

(** The loop over the sorted hosts never raises and returns the chosen host. *)
Lemma select_host_chosen sorted_hosts allocations vm_name vm_resources original_host :
  incl (Dict.keys sorted_hosts) (Dict.keys allocations) ->
  exists best,
    select_host sorted_hosts allocations vm_name vm_resources original_host
    = Ok best
    /\ chosen (candidate allocations vm_name vm_resources original_host)
         sorted_hosts best.
Proof.
  intros Hincl. unfold select_host.
  apply (for_each_invariant
           (fun best done =>
              chosen (candidate allocations vm_name vm_resources original_host)
                done best)
           _ sorted_hosts); [|simpl; tauto].
  intros best done host rest Hin Hbest. unfold consider_host.
  rewrite candidate_score_candidate
    by (apply Hincl; apply (in_map fst); rewrite Hin;
        apply in_or_app; right; now left).
  cbn [bind]. apply (chosen_step _ _ _ host) in Hbest.
  destruct (candidate allocations vm_name vm_resources original_host host)
    as [score|]; [|eauto].
  destruct (score_gtb score (snd best)); eauto.
Qed.

(** ** Tallies *)

Lemma total_allocated_fold held total :
  fold_left
    (fun total kv =>
       {| cpu := cpu total + cpu (snd kv); ram := ram total + ram (snd kv) |})
    held total
  = {| cpu := cpu total + tally cpu held; ram := ram total + tally ram held |}.
Proof.
  revert total. induction held as [|kv held IH]; intros total; simpl.
  - destruct total; simpl. f_equal; lia.
  - rewrite IH. simpl. f_equal; lia.
Qed.

Lemma total_allocated_tally held :
  total_allocated held = {| cpu := tally cpu held; ram := tally ram held |}.
Proof. unfold total_allocated. now rewrite total_allocated_fold. Qed.

Lemma tally_app dim held held' :
  tally dim (held ++ held') = tally dim held + tally dim held'.
Proof. induction held as [|kv held IH]; simpl; lia. Qed.

Lemma new_allocation_tally held vm :
  new_allocation held (snd vm)
  = {| cpu := tally cpu (held ++ [vm]); ram := tally ram (held ++ [vm]) |}.
Proof.
  unfold new_allocation. rewrite total_allocated_tally, !tally_app. simpl.
  f_equal; lia.
Qed.

(** The demands of the VMs a host holds add up to its tally, when the items
    it holds are items of the request. *)
Lemma total_demand_tally vms dim held :
  Dict.wf vms -> incl held vms ->
  total_demand vms dim (Dict.keys held) = tally dim held.
Proof.
  intros Hwf. induction held as [|[v r] held IH]; intros Hincl; simpl.
  - reflexivity.
  - rewrite IH by (intros x Hx; apply Hincl; now right).
    unfold demand. rewrite (DictFacts.wf_In_get vms v r Hwf); [reflexivity|].
    apply Hincl. now left.
Qed.

(** ** Which VMs are placed *)

Lemma placed_spec allocations v :
  placed allocations v = true <->
  exists h held, In (h, held) allocations /\ In v (Dict.keys held).
Proof.
  unfold placed. rewrite existsb_exists. split.
  - intros ([h held] & Hin & Hmem). apply DictFacts.mem_In in Hmem. eauto.
  - intros (h & held & Hin & Hv). exists (h, held).
    split; [exact Hin | now apply DictFacts.mem_In].
Qed.

Lemma placed_get allocations v :
  Dict.wf allocations ->
  placed allocations v = true <->
  exists h held, Dict.get allocations h = Some held /\ In v (Dict.keys held).
Proof.
  intros Hwf. rewrite placed_spec. split; intros (h & held & H & Hv);
    exists h, held; (split; [|exact Hv]); now apply DictFacts.wf_get_In.
Qed.

(** ** The initial state *)

Lemma initial_allocations hosts :
  Dict.wf hosts ->
  allocations (initial_state hosts) = map (fun x => (fst x, [])) hosts.
Proof. intros H. simpl. now apply DictFacts.comprehension_map. Qed.

Lemma initial_remaining hosts :
  Dict.wf hosts -> remaining_resources (initial_state hosts) = hosts.
Proof.
  intros H. simpl. rewrite DictFacts.comprehension_map by exact H.
  rewrite <- (map_id hosts) at 2. apply map_ext. now intros [h r].
Qed.

Lemma initial_held hosts h held :
  Dict.wf hosts ->
  Dict.get (allocations (initial_state hosts)) h = Some held -> held = [].
Proof.
  intros Hwf Hget. apply DictFacts.get_In in Hget.
  rewrite (initial_allocations _ Hwf) in Hget.
  apply in_map_iff in Hget as (x & E & _). now injection E.
Qed.

Lemma initial_invariant hosts :
  Dict.wf hosts -> run_invariant hosts (initial_state hosts) [].
Proof.
  intros Hwf. split.
  - rewrite (initial_allocations _ Hwf). unfold Dict.keys.
    rewrite map_map. reflexivity.
  - now rewrite (initial_remaining _ Hwf).
  - intros h held Hget. now rewrite (initial_held _ _ _ Hwf Hget).
  - intros h h' held held' v Hget _ Hv.
    rewrite (initial_held _ _ _ Hwf Hget) in Hv. destruct Hv.
  - intros h held capacity Hget _. left. eapply initial_held; eauto.
  - intros h held capacity Hget Hcap.
    rewrite (initial_held _ _ _ Hwf Hget), (initial_remaining _ Hwf), Hcap.
    simpl. destruct capacity; simpl. do 2 f_equal; lia.
  - reflexivity.
Qed.

(** ** One iteration of the loop over the VMs *)

Section Step.

Variable hosts : Dict.t resources.
Hypothesis hosts_wf : Dict.wf hosts.

Variable st : state.
Variable done : list (string * resources).
Hypothesis Hinv : run_invariant hosts st done.

Variable vm : string * resources.
Hypothesis vm_new : ~ In (fst vm) (Dict.keys done).

Lemma allocations_wf : Dict.wf (allocations st).
Proof. unfold Dict.wf. now rewrite (inv_allocations_keys _ _ _ Hinv). Qed.

Lemma held_incl h held :
  Dict.get (allocations st) h = Some held -> incl held done.
Proof.
  intros Hget x Hx. rewrite (inv_held _ _ _ Hinv _ _ Hget) in Hx.
  now apply filter_In in Hx.
Qed.

Lemma held_not_new h held :
  Dict.get (allocations st) h = Some held -> ~ In (fst vm) (Dict.keys held).
Proof.
  intros Hget Hin. apply vm_new. apply in_map_iff in Hin as (x & <- & Hx).
  apply (in_map fst). eapply held_incl; eauto.
Qed.

Lemma not_placed_new : placed (allocations st) (fst vm) = false.
Proof.
  destruct (placed (allocations st) (fst vm)) eqn:E; [|reflexivity].
  apply (placed_get _ _ allocations_wf) in E as (h & held & Hget & Hin).
  destruct (held_not_new _ _ Hget Hin).
Qed.

Lemma filter_held_new held h :
  Dict.get (allocations st) h = Some held ->
  filter (fun x => Dict.mem (fst x) held) (done ++ [vm]) = held.
Proof.
  intros Hget. rewrite filter_app. simpl.
  replace (Dict.mem (fst vm) held) with false
    by (symmetry; apply DictFacts.mem_false; eapply held_not_new; eauto).
  rewrite app_nil_r. symmetry. eapply inv_held; eauto.
Qed.

(** A VM no host can take goes to the failure list. *)
Lemma fail_invariant : run_invariant hosts (fail st (fst vm)) (done ++ [vm]).
Proof.
  destruct Hinv as [Hk Hr Hh Hd Hc Hrem Hf]. split; simpl; auto.
  - intros h held Hget. symmetry. eapply filter_held_new; eauto.
  - rewrite filter_app, DictFacts.keys_app, <- Hf. simpl.
    now rewrite not_placed_new.
Qed.

Variable best_host : string.
Variable held : Dict.t resources.
Variable capacity : resources.
Hypothesis Hheld : Dict.get (allocations st) best_host = Some held.
Hypothesis Hcapacity : Dict.get hosts best_host = Some capacity.
Hypothesis Hfits : fits capacity held (snd vm) = true.

Lemma commit_Ok original_host :
  exists st',
    commit st (fst vm) (snd vm) original_host best_host = Ok st'
    /\ allocations st' = Dict.set (allocations st) best_host (held ++ [vm])
    /\ failed_allocations st' = failed_allocations st
    /\ remaining_resources st'
       = Dict.set (remaining_resources st) best_host
           {| cpu := cpu capacity - tally cpu (held ++ [vm]);
              ram := ram capacity - tally ram (held ++ [vm]) |}
    /\ migrations st'
       = if truthy original_host && negb (opt_eqb original_host best_host)
         then Dict.set (migrations st) (fst vm)
                {| from := match original_host with Some o => o | None => "" end;
                   to := best_host |}
         else migrations st.
Proof.
  unfold commit, Dict.item. rewrite Hheld. cbn [bind].
  rewrite (inv_remaining _ _ _ Hinv _ _ _ Hheld Hcapacity). cbn [bind].
  eexists. split; [reflexivity|]. cbn [allocations failed_allocations
    remaining_resources migrations].
  rewrite (DictFacts.set_new held) by (eapply held_not_new; eauto).
  replace (fst vm, snd vm) with vm by now destruct vm.
  repeat split.
  - f_equal. rewrite !tally_app. simpl. f_equal; lia.
  - destruct original_host as [o|]; [|reflexivity]. simpl.
    destruct (negb (o =? ""))%string; reflexivity.
Qed.

Lemma best_host_key : In best_host (Dict.keys (allocations st)).
Proof. eapply DictFacts.get_in_keys; eauto. Qed.

Lemma get_committed h :
  Dict.get (Dict.set (allocations st) best_host (held ++ [vm])) h
  = if String.eqb h best_host then Some (held ++ [vm])
    else Dict.get (allocations st) h.
Proof.
  destruct (String.eqb_spec h best_host) as [->|Hne].
  - apply DictFacts.get_set_same.
  - now apply DictFacts.get_set_other.
Qed.

Lemma placed_committed v :
  placed (Dict.set (allocations st) best_host (held ++ [vm])) v
  = placed (allocations st) v || String.eqb v (fst vm).
Proof.
  assert (Hwf' : Dict.wf (Dict.set (allocations st) best_host (held ++ [vm])))
    by apply DictFacts.wf_set, allocations_wf.
  apply eq_true_iff_eq.
  rewrite orb_true_iff, (placed_get _ _ Hwf'), (placed_get _ _ allocations_wf).
  rewrite String.eqb_eq. split.
  - intros (h & held' & Hget & Hin). rewrite get_committed in Hget.
    destruct (String.eqb_spec h best_host) as [->|Hne].
    + injection Hget as <-. rewrite DictFacts.keys_app in Hin.
      apply in_app_or in Hin as [Hin|[<-|[]]]; [left; eauto | now right].
    + left; eauto.
  - intros [(h & held' & Hget & Hin) | ->].
    + destruct (String.eqb_spec h best_host) as [->|Hne].
      * exists best_host, (held ++ [vm]). rewrite get_committed, String.eqb_refl.
        split; [reflexivity|]. rewrite DictFacts.keys_app.
        apply in_or_app. left. congruence.
      * exists h, held'. rewrite get_committed.
        apply String.eqb_neq in Hne. rewrite Hne. auto.
    + exists best_host, (held ++ [vm]). rewrite get_committed, String.eqb_refl.
      split; [reflexivity|]. rewrite DictFacts.keys_app.
      apply in_or_app. right. now left.
Qed.

(** A VM committed to a host that can take it preserves the invariant. *)
Lemma commit_invariant original_host :
  exists st',
    commit st (fst vm) (snd vm) original_host best_host = Ok st'
    /\ run_invariant hosts st' (done ++ [vm])
    /\ allocations st' = Dict.set (allocations st) best_host (held ++ [vm])
    /\ failed_allocations st' = failed_allocations st.
Proof.
  destruct (commit_Ok original_host) as (st' & Hc & Ha & Hf & Hr & Hm).
  exists st'. repeat split; auto.
  - rewrite Ha, DictFacts.keys_set_old by apply best_host_key.
    apply (inv_allocations_keys _ _ _ Hinv).
  - rewrite Hr, DictFacts.keys_set_old.
    + apply (inv_remaining_keys _ _ _ Hinv).
    + rewrite (inv_remaining_keys _ _ _ Hinv).
      eapply DictFacts.get_in_keys; eauto.
  - intros h held'. rewrite Ha, get_committed.
    destruct (String.eqb_spec h best_host) as [->|Hne]; intros Hget.
    + injection Hget as <-. rewrite filter_app. simpl.
      replace (Dict.mem (fst vm) (held ++ [vm])) with true.
      * f_equal. rewrite (inv_held _ _ _ Hinv _ _ Hheld) at 1.
        apply filter_ext_in. intros x Hx. apply eq_true_iff_eq.
        rewrite !DictFacts.mem_In, DictFacts.keys_app, in_app_iff. simpl.
        split; [tauto | intros [H|[E|[]]]; [exact H|]].
        exfalso. apply vm_new. rewrite E. now apply (in_map fst).
      * symmetry. apply DictFacts.mem_In. rewrite DictFacts.keys_app.
        apply in_or_app. right. now left.
    + symmetry. eapply filter_held_new; eauto.
  - intros h h' held1 held2 v. rewrite Ha, !get_committed.
    destruct (String.eqb_spec h best_host) as [->|Hne],
             (String.eqb_spec h' best_host) as [->|Hne']; auto;
      intros H1 H2 Hv1 Hv2.
    + injection H1 as <-. rewrite DictFacts.keys_app in Hv1.
      apply in_app_or in Hv1 as [Hv1|[<-|[]]].
      * symmetry. eapply (inv_disjoint _ _ _ Hinv); eauto.
      * exfalso. eapply held_not_new; eauto.
    + injection H2 as <-. rewrite DictFacts.keys_app in Hv2.
      apply in_app_or in Hv2 as [Hv2|[<-|[]]].
      * eapply (inv_disjoint _ _ _ Hinv); eauto.
      * exfalso. eapply held_not_new; eauto.
    + eapply (inv_disjoint _ _ _ Hinv); eauto.
  - intros h held' cap. rewrite Ha, get_committed.
    destruct (String.eqb_spec h best_host) as [->|Hne]; intros Hget Hcap.
    + injection Hget as <-. right.
      assert (cap = capacity) by congruence. subst cap.
      apply fits_spec in Hfits. rewrite new_allocation_tally in Hfits. exact Hfits.
    + eapply (inv_capacity _ _ _ Hinv); eauto.
  - intros h held' cap. rewrite Ha, Hr, get_committed.
    destruct (String.eqb_spec h best_host) as [->|Hne]; intros Hget Hcap.
    + injection Hget as <-. assert (cap = capacity) by congruence. subst cap.
      apply DictFacts.get_set_same.
    + rewrite DictFacts.get_set_other by exact Hne.
      eapply (inv_remaining _ _ _ Hinv); eauto.
  - rewrite Hf, Ha, (inv_failed _ _ _ Hinv), filter_app. simpl.
    rewrite placed_committed, String.eqb_refl, orb_true_r. simpl.
    rewrite app_nil_r. f_equal. apply filter_ext_in. intros x Hx.
    rewrite placed_committed.
    replace (fst x =? fst vm)%string with false; [now rewrite orb_false_r|].
    symmetry. apply String.eqb_neq. intros E. apply vm_new. rewrite <- E.
    now apply (in_map fst).
Qed.

End Step.

Lemma candidate_Some allocations vm_name vm_resources original_host host score :
  candidate allocations vm_name vm_resources original_host host = Some score <->
  exists held,
    Dict.get allocations (fst host) = Some held
    /\ fits (snd host) held vm_resources = true
    /\ score = adjust (curve (load (snd host) held vm_resources))
                 vm_name (fst host) original_host (is_empty held).
Proof.
  unfold candidate. destruct (Dict.get allocations (fst host)) as [held|].
  - destruct (fits (snd host) held vm_resources) eqn:Hfits; split.
    + intros H. injection H as <-. eauto.
    + intros (held' & E & _ & ->). injection E as <-. reflexivity.
    + discriminate.
    + intros (held' & E & Hf & _). injection E as <-. congruence.
  - split; [discriminate | intros (held' & E & _); discriminate].
Qed.

Lemma candidate_None allocations vm_name vm_resources original_host host held :
  Dict.get allocations (fst host) = Some held ->
  candidate allocations vm_name vm_resources original_host host = None <->
  fits (snd host) held vm_resources = false.
Proof.
  intros Hget. unfold candidate. rewrite Hget.
  destruct (fits (snd host) held vm_resources); split; congruence.
Qed.

Lemma select_host_fold sorted_hosts allocations vm_name vm_resources
    original_host best :
  incl (Dict.keys sorted_hosts) (Dict.keys allocations) ->
  for_each (consider_host allocations vm_name vm_resources original_host)
    sorted_hosts best
  = Ok (fold_left
          (better (candidate allocations vm_name vm_resources original_host))
          sorted_hosts best).
Proof.
  revert best. induction sorted_hosts as [|host hs IH]; intros best Hincl; simpl.
  - reflexivity.
  - unfold consider_host at 1. rewrite candidate_score_candidate
      by (apply Hincl; now left).
    cbn [bind]. unfold better at 2.
    destruct (candidate allocations vm_name vm_resources original_host host)
      as [score|]; [destruct (score_gtb score (snd best))|];
      cbn [bind]; apply IH; intros k Hk; apply Hincl; now right.
Qed.

(** The loop over the hosts is the fold [selection] over the candidates. *)
Lemma select_host_selection sorted_hosts allocations vm_name vm_resources
    original_host :
  incl (Dict.keys sorted_hosts) (Dict.keys allocations) ->
  select_host sorted_hosts allocations vm_name vm_resources original_host
  = Ok (selection (candidate allocations vm_name vm_resources original_host)
          sorted_hosts).
Proof. apply select_host_fold. Qed.

(** ** The loop over the VMs *)

Section Run.

Variable hosts : Dict.t resources.
Hypothesis hosts_wf : Dict.wf hosts.

Variable previous_allocations : Dict.t (Dict.t resources).

Let sorted_hosts := sorted_reverse hosts.

Lemma sorted_hosts_In host : In host sorted_hosts <-> In host hosts.
Proof.
  split; apply Permutation_in;
    [|symmetry]; apply sorted_reverse_perm.
Qed.

Lemma sorted_hosts_get host :
  In host sorted_hosts -> Dict.get hosts (fst host) = Some (snd host).
Proof.
  intros Hin. apply DictFacts.wf_In_get; [exact hosts_wf|].
  apply sorted_hosts_In in Hin. now destruct host.
Qed.

(** What one iteration does: the selection returns the chosen host; the VM
    joins the failure list when nothing was chosen or the chosen identifier
    is the empty string, and is committed to the chosen host otherwise. *)
Lemma place_vm_spec st done vm :
  run_invariant hosts st done ->
  ~ In (fst vm) (Dict.keys done) ->
  let original_host := find_original_host previous_allocations (fst vm) in
  exists best st',
    select_host sorted_hosts (allocations st) (fst vm) (snd vm) original_host
    = Ok best
    /\ chosen (candidate (allocations st) (fst vm) (snd vm) original_host)
         sorted_hosts best
    /\ place_vm sorted_hosts previous_allocations st vm = Ok st'
    /\ run_invariant hosts st' (done ++ [vm])
    /\ match fst best with
       | Some host_name =>
           if String.eqb host_name "" then st' = fail st (fst vm)
           else exists held,
               Dict.get (allocations st) host_name = Some held
               /\ commit st (fst vm) (snd vm) original_host host_name = Ok st'
               /\ allocations st'
                  = Dict.set (allocations st) host_name (held ++ [vm])
               /\ failed_allocations st' = failed_allocations st
       | None => st' = fail st (fst vm)
       end.
Proof.
  intros Hinv Hnew original_host.
  destruct (select_host_chosen sorted_hosts (allocations st) (fst vm) (snd vm)
              original_host) as (best & Hsel & Hch).
  { rewrite (inv_allocations_keys _ _ _ Hinv). intros k Hk.
    eapply Permutation_in; [apply sorted_reverse_keys_perm | exact Hk]. }
  exists best. unfold place_vm. fold original_host. rewrite Hsel. cbn [bind].
  pose proof Hch as Hch0.
  destruct best as [[name|] [|s]]; simpl in Hch; try contradiction;
    cbn [fst truthy].
  - destruct Hch as (before & host & after & Hhosts & Hname & Hcand & _).
    destruct (String.eqb_spec name "") as [->|Hne]; cbn [negb].
    + exists (fail st (fst vm)).
      split; [reflexivity|]. split; [exact Hch0|]. split; [reflexivity|].
      split; [apply fail_invariant; auto | reflexivity].
    + apply candidate_Some in Hcand as (held & Hget & Hfits & _).
      rewrite Hname in Hget.
      assert (Hcap : Dict.get hosts name = Some (snd host)).
      { rewrite <- Hname. apply sorted_hosts_get. rewrite Hhosts.
        apply in_or_app. right. now left. }
      destruct (commit_invariant hosts hosts_wf st done Hinv vm Hnew name held
                  (snd host)
                  Hget Hcap Hfits original_host) as (st' & Hc & Hi & Ha & Hf).
      exists st'.
      split; [reflexivity|]. split; [exact Hch0|]. split; [exact Hc|].
      split; [exact Hi|]. exists held. auto.
  - exists (fail st (fst vm)).
    split; [reflexivity|]. split; [exact Hch0|]. split; [reflexivity|].
    split; [apply fail_invariant; auto | reflexivity].
Qed.

Lemma place_vm_invariant st done vm :
  run_invariant hosts st done ->
  ~ In (fst vm) (Dict.keys done) ->
  exists st',
    place_vm sorted_hosts previous_allocations st vm = Ok st'
    /\ run_invariant hosts st' (done ++ [vm]).
Proof.
  intros Hinv Hnew.
  destruct (place_vm_spec st done vm Hinv Hnew) as (best & st' & _ & _ & H & Hi & _).
  eauto.
Qed.

Lemma vm_not_done (xs done rest : list (string * resources)) vm :
  Dict.wf xs -> xs = done ++ vm :: rest -> ~ In (fst vm) (Dict.keys done).
Proof.
  unfold Dict.wf. intros Hwf -> Hin. rewrite DictFacts.keys_app in Hwf.
  simpl in Hwf. apply NoDup_remove_2 in Hwf. apply Hwf.
  apply in_or_app. now left.
Qed.

(** The loop never raises, and the invariant holds when it ends. *)
Lemma run_Ok sorted_vms :
  Dict.wf sorted_vms ->
  exists st,
    for_each (place_vm sorted_hosts previous_allocations) sorted_vms
      (initial_state hosts) = Ok st
    /\ run_invariant hosts st sorted_vms.
Proof.
  intros Hwf. apply for_each_invariant.
  - intros st done vm rest Hxs Hinv. apply place_vm_invariant; [exact Hinv|].
    eapply vm_not_done; eauto.
  - now apply initial_invariant.
Qed.

End Run.

Lemma final_allocations_map allocations :
  Dict.wf allocations ->
  final_allocations allocations
  = map (fun kv => (fst kv, Dict.keys (snd kv))) allocations.
Proof.
  intros Hwf. unfold final_allocations.
  now rewrite (DictFacts.comprehension_fold fst (fun kv => Dict.keys (snd kv))).
Qed.

(** [allocate_vms] returns on every request: no subscript misses its key and
    the curve is never evaluated outside its domain. *)
Lemma allocate_vms_Ok hosts vms previous_allocations :
  Dict.wf hosts -> Dict.wf vms ->
  exists st,
    for_each (place_vm (sorted_reverse hosts) (or_empty previous_allocations))
      (sorted_reverse vms) (initial_state hosts) = Ok st
    /\ run_invariant hosts st (sorted_reverse vms)
    /\ allocate_vms hosts vms previous_allocations
       = Ok (map (fun kv => (fst kv, Dict.keys (snd kv))) (allocations st),
             migrations st, failed_allocations st).
Proof.
  intros Hh Hv.
  destruct (run_Ok hosts Hh (or_empty previous_allocations) (sorted_reverse vms)
              (sorted_reverse_wf _ Hv)) as (st & Hrun & Hinv).
  exists st. split; [exact Hrun|]. split; [exact Hinv|].
  unfold allocate_vms. cbv zeta. rewrite Hrun. cbn [bind]. rewrite final_allocations_map; [reflexivity|].
  unfold Dict.wf. now rewrite (inv_allocations_keys _ _ _ Hinv).
Qed.

(** * The properties of the specification *)

Lemma keys_filter_fst {V : Type} (p : string -> bool) (d : Dict.t V) :
  Dict.keys (filter (fun kv => p (fst kv)) d) = filter p (Dict.keys d).
Proof.
  induction d as [|kv d IH]; simpl; [reflexivity|].
  destruct (p (fst kv)); simpl; now rewrite IH.
Qed.

Lemma existsb_eqb_In (v : string) (names : list string) :
  existsb (String.eqb v) names = true <-> In v names.
Proof.
  rewrite existsb_exists. split.
  - intros (x & Hin & E). apply String.eqb_eq in E. now subst.
  - intros Hin. exists v. split; [exact Hin | apply String.eqb_refl].
Qed.

Lemma In_final_allocation (allocations : Dict.t (Dict.t resources)) h names :
  Dict.wf allocations ->
  In (h, names) (map (fun kv => (fst kv, Dict.keys (snd kv))) allocations) <->
  exists held, Dict.get allocations h = Some held /\ names = Dict.keys held.
Proof.
  intros Hwf. rewrite in_map_iff. split.
  - intros ([h' held] & E & Hin). simpl in E. injection E as -> <-.
    exists held. split; [now apply DictFacts.wf_In_get | reflexivity].
  - intros (held & Hget & ->). exists (h, held).
    split; [reflexivity | now apply DictFacts.get_In].
Qed.

(** C2. Every VM identifier of the request is either in the failure list and
    in no host's list, or in the list of exactly one host and not in the
    failure list. *)
Theorem totality hosts vms previous_allocations :
  Dict.wf hosts -> Dict.wf vms ->
  exists allocation migrations failures,
    allocate_vms hosts vms previous_allocations
    = Ok (allocation, migrations, failures)
    /\ forall v, In v (Dict.keys vms) ->
         (In v failures
          /\ forall h names, In (h, names) allocation -> ~ In v names)
         \/ (~ In v failures
             /\ exists h names,
                 In (h, names) allocation /\ In v names
                 /\ forall h' names',
                      In (h', names') allocation -> In v names' -> h' = h).
Proof.
  intros Hh Hv.
  destruct (allocate_vms_Ok hosts vms previous_allocations Hh Hv)
    as (st & _ & Hinv & Hres).
  do 3 eexists. split; [exact Hres|]. intros v Hin.
  pose proof (allocations_wf hosts Hh st _ Hinv) as Hwf.
  assert (Hfailed : In v (failed_allocations st) <->
                    placed (allocations st) v = false).
  { rewrite (inv_failed _ _ _ Hinv).
    rewrite (keys_filter_fst (fun v => negb (placed (allocations st) v))).
    rewrite filter_In, negb_true_iff. split; [tauto|]. intros E. split; [|exact E].
    eapply Permutation_in; [symmetry; apply sorted_reverse_keys_perm | exact Hin]. }
  destruct (placed (allocations st) v) eqn:Hplaced.
  - right. split; [rewrite Hfailed; discriminate|].
    apply (placed_get _ _ Hwf) in Hplaced as (h & held & Hget & Hheld).
    exists h, (Dict.keys held). split; [|split; [exact Hheld|]].
    + apply In_final_allocation; eauto.
    + intros h' names' Hin' Hv'.
      apply In_final_allocation in Hin' as (held' & Hget' & ->); [|exact Hwf].
      eapply (inv_disjoint _ _ _ Hinv); eauto.
  - left. split; [now apply Hfailed|]. intros h names Hin' Hv'.
    apply In_final_allocation in Hin' as (held & Hget & ->); [|exact Hwf].
    assert (placed (allocations st) v = true) by (apply placed_get; eauto).
    congruence.
Qed.

(** C1. With non-negative capacities, the demands of the VMs a host is
    assigned add up, in [cpu] and in [ram], to no more than the capacity of
    the host. *)
Theorem capacity_invariant hosts vms previous_allocations :
  Dict.wf hosts -> Dict.wf vms ->
  (forall h capacity, In (h, capacity) hosts ->
     0 <= cpu capacity /\ 0 <= ram capacity) ->
  exists allocation migrations failures,
    allocate_vms hosts vms previous_allocations
    = Ok (allocation, migrations, failures)
    /\ forall h names capacity,
         In (h, names) allocation -> In (h, capacity) hosts ->
         total_demand vms cpu names <= cpu capacity
         /\ total_demand vms ram names <= ram capacity.
Proof.
  intros Hh Hv Hpos.
  destruct (allocate_vms_Ok hosts vms previous_allocations Hh Hv)
    as (st & _ & Hinv & Hres).
  do 3 eexists. split; [exact Hres|]. intros h names capacity Hin Hcap.
  pose proof (allocations_wf hosts Hh st _ Hinv) as Hwf.
  apply In_final_allocation in Hin as (held & Hget & ->); [|exact Hwf].
  assert (Hincl : incl held vms).
  { intros x Hx. apply (held_incl hosts st _ Hinv _ _ Hget) in Hx.
    eapply Permutation_in; [apply sorted_reverse_perm | exact Hx]. }
  rewrite !(total_demand_tally vms _ held Hv Hincl).
  destruct (inv_capacity _ _ _ Hinv h held capacity Hget) as [->|H].
  - now apply DictFacts.wf_In_get.
  - simpl. now apply Hpos in Hcap.
  - exact H.
Qed.

(** ** Runs on concrete requests *)

Arguments curve : simpl never.
Arguments load : simpl never.

Ltac eval_fits :=
  repeat match goal with
  | |- context [fits ?c ?h ?v] =>
      let b := eval vm_compute in (fits c h v) in
      change (fits c h v) with b
  end.

Ltac eval_state :=
  match goal with
  | |- context [place_vm _ _ ?s _] =>
      let s' := eval vm_compute in s in change s with s'
  end.

(** One iteration of the loop over the VMs from a concrete state: the
    capacity checks are computed, the comparisons of two scores give one
    case each. *)
Ltac place :=
  eval_state;
  unfold place_vm at 1; cbn [fst snd find_original_host allocations];
  rewrite select_host_selection by (unfold incl; simpl; tauto);
  cbn [bind]; unfold selection; cbn [fold_left]; unfold better, candidate;
  cbn [fst snd Dict.get String.eqb Ascii.eqb Bool.eqb allocations];
  eval_fits; cbn [snd score_gtb];
  repeat match goal with
         | |- context [Rgt_dec ?a ?b] => destruct (Rgt_dec a b)
         end;
  cbn [fst truthy String.eqb Ascii.eqb Bool.eqb negb];
  try unfold commit at 1;
  cbn [Dict.item Dict.get String.eqb Ascii.eqb Bool.eqb allocations
       remaining_resources bind].

Ltac start_run :=
  unfold allocate_vms; cbv zeta;
  repeat match goal with
         | |- context [sorted_reverse ?d] =>
             let l := eval vm_compute in (sorted_reverse d) in
             change (sorted_reverse d) with l
         | |- context [initial_state ?d] =>
             let s := eval vm_compute in (initial_state d) in
             change (initial_state d) with s
         end;
  cbn [or_empty for_each].

(** C9. Hosts A (24, 512) and B (32, 768), VMs v1 (2, 4), v2 (3, 7) and
    v3 (128, 1024), no previous placement: v3 is the failure list, v1 and v2
    are both placed, and no migration is recorded. *)
Theorem concrete_scenario :
  exists allocation,
    allocate_vms scenario_hosts scenario_vms None
    = Ok (allocation, [], ["v3"])
    /\ (exists h names, In (h, names) allocation /\ In "v1" names)
    /\ (exists h names, In (h, names) allocation /\ In "v2" names).
Proof.
  unfold scenario_hosts, scenario_vms. start_run. place. place. all: place.
  all: eexists; split; [vm_compute; reflexivity|].
  - split; exists "A", ["v2"; "v1"]; simpl; auto.
  - split; [exists "B", ["v1"] | exists "A", ["v2"]]; simpl; auto.
  - split; [exists "A", ["v1"] | exists "B", ["v2"]]; simpl; auto.
  - split; exists "B", ["v2"; "v1"]; simpl; auto.
Qed.

(** ** The score *)

Lemma curve_spec_curve u : curve u = spec_curve u.
Proof. apply curve_closed_form. Qed.

Lemma adjust_spec_adjust score vm_name host_name original_host host_is_empty :
  original_host <> Some "" ->
  adjust score vm_name host_name original_host host_is_empty
  = (spec_adjust score original_host host_name host_is_empty
     + pinned_bonus vm_name host_name)%R.
Proof.
  intros Hne. unfold adjust, spec_adjust, pinned_bonus, truthy, opt_eqb.
  destruct original_host as [original|].
  - destruct (String.eqb_spec original "") as [->|_]; [congruence|].
    cbn [negb andb].
    destruct (original =? host_name)%string, host_is_empty,
      ((vm_name =? "vm1")%string && (host_name =? "host1")%string),
      ((vm_name =? "vm2")%string && (host_name =? "host2")%string);
      cbn [negb]; lra.
  - cbn [andb].
    destruct host_is_empty,
      ((vm_name =? "vm1")%string && (host_name =? "host1")%string),
      ((vm_name =? "vm2")%string && (host_name =? "host2")%string); lra.
Qed.

(** C3, as the code has it.  For a feasible candidate and a previous host
    that is absent or has a non-empty identifier, the score is the curve at
    utilization / 100 with the three adjustments of the specification, plus
    100 when the pair is (vm1, host1) and plus 100 when it is (vm2, host2). *)
Theorem score_formula allocations vm_name vm_resources original_host
    host_name host_resources held :
  Dict.get allocations host_name = Some held ->
  fits host_resources held vm_resources = true ->
  original_host <> Some "" ->
  let utilization :=
    calculate_utilization host_resources (new_allocation held vm_resources) in
  (utilization <= 100)%R
  /\ candidate_score allocations vm_name vm_resources original_host
       host_name host_resources
     = Ok (Some (spec_adjust (spec_curve (utilization / 100)) original_host
                   host_name (is_empty held)
                 + pinned_bonus vm_name host_name)%R).
Proof.
  intros Hget Hfits Hne utilization. split.
  - apply fits_spec in Hfits as [Hc Hr].
    now apply calculate_utilization_le_100.
  - rewrite (candidate_score_spec _ _ _ _ _ _ _ Hget), Hfits.
    rewrite (adjust_spec_adjust _ _ _ _ _ Hne), curve_spec_curve.
    reflexivity.
Qed.

Lemma score_formula_witness :
  candidate_score [("A", [])] "v1" (mkResources 2 4) None "A" (mkResources 24 512)
  = Ok (Some (spec_adjust
                (spec_curve
                   (calculate_utilization (mkResources 24 512)
                      (new_allocation [] (mkResources 2 4)) / 100))
                None "A" true
              + pinned_bonus "v1" "A")%R).
Proof.
  apply (score_formula [("A", [])] "v1" (mkResources 2 4) None "A"
           (mkResources 24 512) []);
    [reflexivity | reflexivity | discriminate].
Defined.

(** C3 as the specification states it fails on the pair (vm1, host1): the
    candidate is feasible and its score is not the curve with the three
    adjustments. *)
Lemma score_formula_counterexample :
  fits (mkResources 4 4) [] (mkResources 1 1) = true
  /\ candidate_score [("host1", [])] "vm1" (mkResources 1 1) None "host1"
       (mkResources 4 4)
     <> Ok (Some (spec_adjust
                    (spec_curve
                       (calculate_utilization (mkResources 4 4)
                          (new_allocation [] (mkResources 1 1)) / 100))
                    None "host1" true)).
Proof.
  split; [reflexivity|].
  rewrite (candidate_score_spec [("host1", [])] "vm1" (mkResources 1 1) None
             "host1" (mkResources 4 4) [] eq_refl).
  change (fits (mkResources 4 4) [] (mkResources 1 1)) with true.
  cbv iota. rewrite curve_spec_curve. unfold load.
  intros H. injection H as H. revert H.
  unfold adjust, spec_adjust. cbn [truthy opt_eqb andb negb is_empty].
  change (("vm1" =? "vm1")%string && ("host1" =? "host1")%string) with true.
  change (("vm1" =? "vm2")%string && ("host1" =? "host2")%string) with false.
  cbv iota. lra.
Qed.

(** ** The domain of the curve *)

Lemma candidate_score_evaluation allocations vm_name vm_resources original_host
    host_name host_resources :
  candidate_score allocations vm_name vm_resources original_host
    host_name host_resources
  = (current_allocation <- Dict.item allocations host_name ;;
     match evaluation_point host_resources
             (new_allocation current_allocation vm_resources) with
     | None => Ok None
     | Some u =>
         score <- calculate_f u ;;
         held <- Dict.item allocations host_name ;;
         Ok (Some (adjust score vm_name host_name original_host (is_empty held)))
     end).
Proof.
  unfold candidate_score, evaluation_point.
  destruct (Dict.item allocations host_name) as [current|e]; [|reflexivity].
  cbn [bind]. fold (new_allocation current vm_resources).
  destruct (_ && _); [|reflexivity].
  now destruct (Rgt_dec _ 100).
Qed.

(** The only exception [candidate_score] can raise is the [KeyError] of a
    host the allocation does not know: never the [ValueError] of the
    logarithm. *)
Lemma candidate_score_raises allocations vm_name vm_resources original_host
    host_name host_resources e :
  candidate_score allocations vm_name vm_resources original_host
    host_name host_resources = Raise e ->
  e = KeyError host_name.
Proof.
  destruct (Dict.get allocations host_name) as [held|] eqn:Hget.
  - rewrite (candidate_score_spec _ _ _ _ _ _ _ Hget). discriminate.
  - unfold candidate_score, Dict.item. rewrite Hget. simpl. congruence.
Qed.

(** C7. The curve is only evaluated at points where the argument of its
    logarithm is positive: a point the guards of lines 100-104 let through
    is at most 1, the argument is positive there, and [calculate_f] returns
    the value of the curve instead of raising. *)
Theorem curve_domain host_resources new_allocation u :
  evaluation_point host_resources new_allocation = Some u ->
  (u <= 1)%R /\ (0 < -2.5 * u + 2.96)%R /\ calculate_f u = Ok (curve u).
Proof.
  unfold evaluation_point.
  destruct (_ && _) eqn:Hfit; [|discriminate].
  destruct (Rgt_dec _ 100) as [Hgt|Hle]; [discriminate|].
  intros H. injection H as <-.
  assert (Hu : (calculate_utilization host_resources new_allocation / 100 <= 1)%R)
    by lra.
  split; [exact Hu|]. split; [lra | now apply calculate_f_le_1].
Qed.

Lemma curve_domain_witness :
  let u := (calculate_utilization (mkResources 24 512) (mkResources 2 4) / 100)%R in
  (u <= 1)%R /\ (0 < -2.5 * u + 2.96)%R /\ calculate_f u = Ok (curve u).
Proof.
  apply (curve_domain (mkResources 24 512) (mkResources 2 4)).
  unfold evaluation_point.
  change ((cpu (mkResources 24 512) >=? cpu (mkResources 2 4))
          && (ram (mkResources 24 512) >=? ram (mkResources 2 4))) with true.
  cbv iota zeta.
  destruct (Rgt_dec _ 100) as [Hgt|_]; [|reflexivity].
  exfalso.
  assert (H : (calculate_utilization (mkResources 24 512) (mkResources 2 4)
               <= 100)%R)
    by (apply calculate_utilization_le_100; simpl; lia).
  lra.
Defined.

(** ** The sorted order *)


Ltac solve_wf :=
  unfold Dict.wf; cbn [Dict.keys map fst scenario_hosts scenario_vms];
  repeat (constructor; [simpl; intuition discriminate|]); constructor.

Lemma scenario_hosts_wf : Dict.wf scenario_hosts.
Proof. solve_wf. Defined.

Lemma scenario_vms_wf : Dict.wf scenario_vms.
Proof. solve_wf. Defined.

Lemma totality_witness :
  exists allocation migrations failures,
    allocate_vms scenario_hosts scenario_vms None
    = Ok (allocation, migrations, failures)
    /\ forall v, In v ["v1"; "v2"; "v3"] ->
         (In v failures
          /\ forall h names, In (h, names) allocation -> ~ In v names)
         \/ (~ In v failures
             /\ exists h names,
                 In (h, names) allocation /\ In v names
                 /\ forall h' names',
                      In (h', names') allocation -> In v names' -> h' = h).
Proof.
  exact (totality scenario_hosts scenario_vms None
           scenario_hosts_wf scenario_vms_wf).
Defined.

Lemma scenario_hosts_nonneg h capacity :
  In (h, capacity) scenario_hosts -> 0 <= cpu capacity /\ 0 <= ram capacity.
Proof.
  intros [E|[E|[]]]; injection E as _ <-; simpl; lia.
Defined.

Lemma capacity_invariant_witness :
  exists allocation migrations failures,
    allocate_vms scenario_hosts scenario_vms None
    = Ok (allocation, migrations, failures)
    /\ forall h names capacity,
         In (h, names) allocation -> In (h, capacity) scenario_hosts ->
         total_demand scenario_vms cpu names <= cpu capacity
         /\ total_demand scenario_vms ram names <= ram capacity.
Proof.
  exact (capacity_invariant scenario_hosts scenario_vms None
           scenario_hosts_wf scenario_vms_wf scenario_hosts_nonneg).
Defined.

(** ** A host whose identifier is the empty string *)

(** C5 at a failing request.  One host, identifier [""], capacity (4, 4);
    one VM (1, 1): the host can take the VM and is selected, line 128 tests
    the truth value of its identifier, and the VM goes to the failure list. *)
Theorem empty_identifier_fails :
  fits (mkResources 4 4) [] (mkResources 1 1) = true
  /\ (exists score,
        select_host [("", mkResources 4 4)] [("", [])] "v" (mkResources 1 1) None
        = Ok (Some "", Finite score))
  /\ allocate_vms [("", mkResources 4 4)] [("v", mkResources 1 1)] None
     = Ok ([("", [])], [], ["v"]).
Proof.
  split; [reflexivity|]. split.
  - rewrite select_host_selection by (unfold incl; simpl; tauto).
    unfold selection. cbn [fold_left]. unfold better, candidate.
    cbn [fst snd Dict.get String.eqb]. eval_fits. cbn [snd score_gtb].
    eexists. reflexivity.
  - start_run. place. reflexivity.
Qed.

(** C6 at a failing request.  The same host and VM, the VM previously on
    that host: it fits, no other host exists, and it is not kept on its
    host but reported as a failure. *)
Theorem empty_identifier_not_sticky :
  find_original_host [("", [("v", mkResources 1 1)])] "v" = Some ""
  /\ fits (mkResources 4 4) [] (mkResources 1 1) = true
  /\ allocate_vms [("", mkResources 4 4)] [("v", mkResources 1 1)]
       (Some [("", [("v", mkResources 1 1)])])
     = Ok ([("", [])], [], ["v"]).
Proof.
  split; [reflexivity|]. split; [reflexivity|].
  start_run. place. reflexivity.
Qed.

(** ** Hosts with non-empty identifiers *)

Lemma failed_done hosts st done v :
  run_invariant hosts st done ->
  In v (failed_allocations st) -> In v (Dict.keys done).
Proof.
  intros Hinv. rewrite (inv_failed _ _ _ Hinv). unfold Dict.keys.
  rewrite !in_map_iff.
  intros (x & E & Hx). apply filter_In in Hx. exists x. tauto.
Qed.

Section NonEmptyIdentifiers.

Variable hosts : Dict.t resources.
Hypothesis hosts_wf : Dict.wf hosts.
Hypothesis hosts_named : ~ In "" (Dict.keys hosts).

Variable previous_allocations : Dict.t (Dict.t resources).

Variable st : state.
Variable done : list (string * resources).
Hypothesis Hinv : run_invariant hosts st done.

Variable vm : string * resources.
Hypothesis vm_new : ~ In (fst vm) (Dict.keys done).

Let original_host := find_original_host previous_allocations (fst vm).
Let cand := candidate (allocations st) (fst vm) (snd vm) original_host.

(** When no host identifier is empty, a VM joins the failure list exactly
    when no host can take it. *)
Lemma place_vm_fails_iff :
  exists st',
    place_vm (sorted_reverse hosts) previous_allocations st vm = Ok st'
    /\ run_invariant hosts st' (done ++ [vm])
    /\ (In (fst vm) (failed_allocations st') <->
        forall host, In host hosts -> cand host = None).
Proof.
  destruct (place_vm_spec hosts hosts_wf previous_allocations st done vm
              Hinv vm_new) as (best & st' & _ & Hch & Hplace & Hinv' & Hst').
  fold original_host in Hch, Hst'. fold cand in Hch.
  exists st'. split; [exact Hplace|]. split; [exact Hinv'|].
  destruct best as [[name|] [|s]]; simpl in Hch; try contradiction;
    cbn [fst] in Hst'.
  - destruct Hch as (before & host & after & Hhosts & Hname & Hcand & _).
    assert (Hin : In host hosts).
    { apply (sorted_hosts_In hosts). rewrite Hhosts.
      apply in_or_app. right. now left. }
    destruct (String.eqb_spec name "") as [->|Hne].
    + exfalso. apply hosts_named. rewrite <- Hname. now apply (in_map fst).
    + destruct Hst' as (held & _ & _ & _ & Hfailed). rewrite Hfailed. split.
      * intros Hf. apply (failed_done _ _ _ _ Hinv) in Hf. contradiction.
      * intros Hnone. rewrite (Hnone _ Hin) in Hcand. discriminate.
  - subst st'. simpl. split.
    + intros _ host Hin. apply Hch. now apply (sorted_hosts_In hosts).
    + intros _. apply in_or_app. right. now left.
Qed.


End NonEmptyIdentifiers.

(** ** Whole runs with non-empty host identifiers *)

Lemma for_each_app {S X : Type} (body : S -> X -> result S) (xs ys : list X) s :
  for_each body (xs ++ ys) s
  = (s' <- for_each body xs s ;; for_each body ys s').
Proof.
  revert s. induction xs as [|x xs IH]; intros s; simpl; [reflexivity|].
  destruct (body s x) as [s1|e]; simpl; [apply IH | reflexivity].
Qed.

(** An iteration leaves the other VMs where they are. *)
Lemma place_vm_other hosts previous_allocations st done vm st' v :
  Dict.wf hosts ->
  run_invariant hosts st done ->
  ~ In (fst vm) (Dict.keys done) ->
  place_vm (sorted_reverse hosts) previous_allocations st vm = Ok st' ->
  v <> fst vm ->
  (In v (failed_allocations st') <-> In v (failed_allocations st))
  /\ (forall h held,
        Dict.get (allocations st) h = Some held -> In v (Dict.keys held) ->
        exists held',
          Dict.get (allocations st') h = Some held' /\ In v (Dict.keys held')).
Proof.
  intros Hwf Hinv Hnew Hplace Hv.
  destruct (place_vm_spec hosts Hwf previous_allocations st done vm Hinv Hnew)
    as (best & st2 & _ & _ & Hplace2 & _ & Hst).
  assert (st2 = st') by congruence. subst st2.
  assert (Hfail : st' = fail st (fst vm) ->
            (In v (failed_allocations st') <-> In v (failed_allocations st))
            /\ (forall h held,
                  Dict.get (allocations st) h = Some held ->
                  In v (Dict.keys held) ->
                  exists held',
                    Dict.get (allocations st') h = Some held'
                    /\ In v (Dict.keys held'))).
  { intros ->. simpl. split; [|eauto]. rewrite in_app_iff. simpl.
    intuition congruence. }
  destruct (fst best) as [name|]; [|now apply Hfail].
  destruct (String.eqb name ""); [now apply Hfail|].
  destruct Hst as (held0 & Hget0 & _ & Halloc & Hfailed).
  rewrite Hfailed. split; [tauto|]. intros h held Hget Hin.
  rewrite Halloc, get_committed.
  destruct (String.eqb_spec h name) as [->|Hne]; [|eauto].
  exists (held0 ++ [vm]). split; [reflexivity|].
  rewrite DictFacts.keys_app. apply in_or_app. left. congruence.
Qed.

Lemma wf_app_l {V : Type} (d d' : Dict.t V) : Dict.wf (d ++ d') -> Dict.wf d.
Proof.
  unfold Dict.wf. rewrite DictFacts.keys_app. apply NoDup_app_remove_r.
Qed.

(** The rest of a run keeps a VM in the failure list or out of it. *)
Lemma run_failed_other hosts previous_allocations v :
  Dict.wf hosts ->
  forall todo done st,
    run_invariant hosts st done ->
    Dict.wf (done ++ todo) ->
    ~ In v (Dict.keys todo) ->
    exists st',
      for_each (place_vm (sorted_reverse hosts) previous_allocations) todo st
      = Ok st'
      /\ run_invariant hosts st' (done ++ todo)
      /\ (In v (failed_allocations st') <-> In v (failed_allocations st)).
Proof.
  intros Hwf. induction todo as [|vm todo IH]; intros done st Hinv Hnd Hv.
  - exists st. rewrite app_nil_r. simpl. tauto.
  - assert (Hnew : ~ In (fst vm) (Dict.keys done))
      by (eapply vm_not_done; eauto).
    destruct (place_vm_invariant hosts Hwf previous_allocations st done vm
                Hinv Hnew) as (st1 & Hplace & Hinv1).
    destruct (place_vm_other hosts previous_allocations st done vm st1 v
                Hwf Hinv Hnew Hplace) as [Hf1 _].
    { intros ->. apply Hv. now left. }
    destruct (IH (done ++ [vm]) st1 Hinv1) as (st' & Hrun & Hinv' & Hf').
    { now rewrite <- app_assoc. }
    { intros Hin. apply Hv. now right. }
    exists st'. simpl. rewrite Hplace. cbn [bind].
    split; [exact Hrun|]. split; [now rewrite <- app_assoc in Hinv'|].
    now rewrite Hf'.
Qed.

(** X14. With non-empty host identifiers, a VM of the request is in the returned
    failure list exactly when, at its turn, no host could take it: [st] is
    the state of the run at that turn. *)
Theorem failure_iff_no_candidate hosts vms previous_allocations done vm rest :
  Dict.wf hosts -> Dict.wf vms -> ~ In "" (Dict.keys hosts) ->
  sorted_reverse vms = done ++ vm :: rest ->
  exists st allocation migrations failures,
    for_each (place_vm (sorted_reverse hosts) (or_empty previous_allocations))
      done (initial_state hosts) = Ok st
    /\ allocate_vms hosts vms previous_allocations
       = Ok (allocation, migrations, failures)
    /\ (In (fst vm) failures <->
        forall host, In host hosts ->
          candidate (allocations st) (fst vm) (snd vm)
            (find_original_host (or_empty previous_allocations) (fst vm)) host
          = None).
Proof.
  intros Hh Hv Hnamed Hsorted.
  pose proof (sorted_reverse_wf _ Hv) as Hwf. rewrite Hsorted in Hwf.
  destruct (run_Ok hosts Hh (or_empty previous_allocations) done
              (wf_app_l _ _ Hwf)) as (st & Hrun & Hinv).
  assert (Hnew : ~ In (fst vm) (Dict.keys done))
    by (eapply vm_not_done; eauto).
  destruct (place_vm_fails_iff hosts Hh Hnamed (or_empty previous_allocations)
              st done Hinv vm Hnew) as (st1 & Hplace & Hinv1 & Hiff).
  destruct (run_failed_other hosts (or_empty previous_allocations) (fst vm) Hh
              rest (done ++ [vm]) st1 Hinv1) as (st2 & Hrest & Hinv2 & Hf).
  { now rewrite <- app_assoc. }
  { unfold Dict.wf in Hwf. rewrite DictFacts.keys_app in Hwf. simpl in Hwf.
    apply NoDup_remove_1 in Hwf as Hnd. apply NoDup_remove_2 in Hwf.
    intros Hin. apply Hwf. apply in_or_app. now right. }
  exists st. do 3 eexists. split; [exact Hrun|]. split.
  - unfold allocate_vms. cbv zeta. rewrite Hsorted.
    rewrite (for_each_app _ done (vm :: rest)), Hrun. cbn [bind for_each].
    rewrite Hplace. cbn [bind]. rewrite Hrest. cbn [bind]. reflexivity.
  - simpl. rewrite Hf. exact Hiff.
Qed.



(** * Further properties of the code *)

(** ** Bounds on the curve *)

Lemma exp_neg_le (y : R) : (0 <= y)%R -> (exp (- y) <= / (1 + y))%R.
Proof.
  intros Hy. pose proof (exp_ineq1_le y) as H. pose proof (exp_pos y) as Hp.
  rewrite exp_Ropp. apply Rinv_le_contravar; lra.
Qed.

Lemma ln_le_minus_1 (c : R) : (0 < c)%R -> (ln c <= c - 1)%R.
Proof.
  intros Hc. pose proof (exp_ineq1_le (ln c)) as H.
  rewrite (exp_ln c Hc) in H. lra.
Qed.

(** The weight [e ** (-2 * ln(c) ** 2)] is at most 1, and at most
    [1 / (1 + 2 (1 - c)^2)] below [c = 1]. *)
Lemma weight_le_1 (c : R) : (exp (-2 * ln c ^ 2) <= 1)%R.
Proof.
  replace (-2 * ln c ^ 2)%R with (- (2 * ln c ^ 2))%R by ring.
  assert (Hy : (0 <= 2 * ln c ^ 2)%R) by (pose proof (pow2_ge_0 (ln c)); lra).
  pose proof (exp_neg_le _ Hy) as H.
  assert ((/ (1 + 2 * ln c ^ 2) <= 1)%R).
  { rewrite <- Rinv_1 at 2. apply Rinv_le_contravar; lra. }
  lra.
Qed.

Lemma weight_below_1 (c : R) :
  (0 < c <= 1)%R -> (exp (-2 * ln c ^ 2) <= / (1 + 2 * (1 - c) ^ 2))%R.
Proof.
  intros [Hc Hc1].
  replace (-2 * ln c ^ 2)%R with (- (2 * ln c ^ 2))%R by ring.
  assert (Hy : (0 <= 2 * ln c ^ 2)%R) by (pose proof (pow2_ge_0 (ln c)); lra).
  pose proof (exp_neg_le _ Hy) as H.
  pose proof (ln_le_minus_1 c Hc) as Hln.
  assert (Hsq : ((1 - c) ^ 2 <= ln c ^ 2)%R) by nra.
  assert ((/ (1 + 2 * ln c ^ 2) <= / (1 + 2 * (1 - c) ^ 2))%R).
  { apply Rinv_le_contravar; [pose proof (pow2_ge_0 (1 - c))|]; lra. }
  lra.
Qed.

Lemma curve_range (x : R) :
  (x <= 1)%R -> (-0.67459 < curve x <= 10.32541)%R.
Proof.
  intros Hx. rewrite curve_closed_form.
  set (c := (-2.5 * x + 2.96)%R).
  replace (-2.5 * x + 5.96)%R with (c + 3)%R by (unfold c; lra).
  assert (Hc : (0.46 <= c)%R) by (unfold c; lra).
  pose proof (exp_pos (-2 * ln c ^ 2)) as Hw.
  assert (Hd : (0 < / (c + 3))%R) by (apply Rinv_0_lt_compat; lra).
  unfold Rdiv. split.
  - assert (0 < 42.38075 * / (c + 3) * exp (-2 * ln c ^ 2))%R
      by (apply Rmult_lt_0_compat; [apply Rmult_lt_0_compat|]; lra).
    lra.
  - assert (H11 : (42.38075 * / (c + 3) * exp (-2 * ln c ^ 2) <= 11)%R);
      [|lra].
    destruct (Rle_dec c 1) as [Hle|Hgt].
    + assert (Hb : (exp (-2 * ln c ^ 2) <= / (1 + 2 * (1 - c) ^ 2))%R)
        by (apply weight_below_1; lra).
      assert (Hq : (0 < 1 + 2 * (1 - c) ^ 2)%R)
        by (pose proof (pow2_ge_0 (1 - c)); lra).
      assert (Hpoly : (42.38075 <= 11 * ((c + 3) * (1 + 2 * (1 - c) ^ 2)))%R).
      { assert (0 <= (1 - c) ^ 2 * (c - 0.46))%R
          by (apply Rmult_le_pos; [apply pow2_ge_0 | lra]).
        nra. }
      apply Rle_trans
        with (42.38075 * / (c + 3) * / (1 + 2 * (1 - c) ^ 2))%R.
      * apply Rmult_le_compat_l; [|exact Hb].
        apply Rmult_le_pos; lra.
      * rewrite Rmult_assoc, <- Rinv_mult.
        apply Rmult_le_reg_r with ((c + 3) * (1 + 2 * (1 - c) ^ 2))%R.
        -- apply Rmult_lt_0_compat; lra.
        -- rewrite Rmult_assoc, Rinv_l; [lra|].
           apply Rgt_not_eq. apply Rmult_lt_0_compat; lra.
    + pose proof (weight_le_1 c) as Hle1.
      assert (Hinv : (/ (c + 3) <= / 4)%R)
        by (apply Rinv_le_contravar; lra).
      assert (42.38075 * / (c + 3) * exp (-2 * ln c ^ 2)
              <= 42.38075 * / 4 * 1)%R.
      { apply Rmult_le_compat; try lra; apply Rmult_le_pos; lra. }
      lra.
Qed.

(** At the target utilization of 78.4% the logarithm vanishes and the curve
    takes the value 9.9205975. *)
Lemma curve_at_target : curve 0.784 = 9.9205975%R.
Proof.
  rewrite curve_closed_form.
  replace (-2.5 * 0.784 + 2.96)%R with 1%R by lra.
  rewrite ln_1. replace (-2 * 0 ^ 2)%R with 0%R by ring.
  rewrite exp_0. lra.
Qed.

(** X1. On the documented domain of [calculate_f], a relative load between 0
    and 1, the call returns a score strictly above -0.67459 and at most 11
    higher: two base scores differ by less than 11, the stickiness bonus plus
    the migration penalty. *)
Theorem calculate_f_bounds (x : R) :
  (0 <= x <= 1)%R ->
  exists score,
    calculate_f x = Ok score /\ (-0.67459 < score <= 10.32541)%R.
Proof.
  intros [_ Hx]. exists (curve x).
  split; [now apply calculate_f_le_1 | now apply curve_range].
Qed.

Lemma calculate_f_bounds_witness :
  exists score,
    calculate_f 0.784 = Ok score /\ (-0.67459 < score <= 10.32541)%R.
Proof. apply (calculate_f_bounds 0.784). lra. Defined.

(** ** The utilization estimator *)

Lemma ratio_ge_0 (used total : Z) :
  0 <= used ->
  (0 <= (if total >? 0 then IZR used / IZR total * 100 else 0))%R.
Proof.
  intros Hu. destruct (Z.gtb_spec total 0) as [Hpos|_]; [|lra].
  assert (Ht : (0 < IZR total)%R) by now apply IZR_lt.
  assert (Hu' : (0 <= IZR used)%R) by now apply IZR_le.
  apply Rmult_le_pos; [|lra]. apply Rmult_le_pos; [exact Hu'|].
  left. now apply Rinv_0_lt_compat.
Qed.

Lemma ratio_monotone (used used' total : Z) :
  used <= used' ->
  ((if total >? 0 then IZR used / IZR total * 100 else 0)
   <= (if total >? 0 then IZR used' / IZR total * 100 else 0))%R.
Proof.
  intros Hu. destruct (Z.gtb_spec total 0) as [Hpos|_]; [|lra].
  assert (Ht : (0 < / IZR total)%R)
    by (apply Rinv_0_lt_compat; now apply IZR_lt).
  assert (Hu' : (IZR used <= IZR used')%R) by now apply IZR_le.
  unfold Rdiv. nra.
Qed.

Lemma ratio_eq_100 (used total : Z) :
  ((if total >? 0 then IZR used / IZR total * 100 else 0) = 100)%R
  <-> 0 < total /\ used = total.
Proof.
  destruct (Z.gtb_spec total 0) as [Hpos|Hle].
  - assert (Ht : (0 < IZR total)%R) by now apply IZR_lt.
    split.
    + intros H. split; [lia|]. apply eq_IZR.
      apply Rmult_eq_reg_r with (r := (/ IZR total * 100)%R).
      * unfold Rdiv in H. rewrite <- Rmult_assoc, H. field. lra.
      * assert (0 < / IZR total)%R by now apply Rinv_0_lt_compat. nra.
    + intros [_ ->]. field. lra.
  - split; [intros H; lra | lia].
Qed.

(** X2. A tally within the capacity gives a utilization between 0 and 100. *)
Theorem calculate_utilization_range host_resources allocated_resources :
  0 <= cpu allocated_resources <= cpu host_resources ->
  0 <= ram allocated_resources <= ram host_resources ->
  (0 <= calculate_utilization host_resources allocated_resources <= 100)%R.
Proof.
  intros [Hc0 Hc] [Hr0 Hr]. split.
  - unfold calculate_utilization.
    eapply Rle_trans; [apply (ratio_ge_0 _ (cpu host_resources) Hc0)|].
    apply Rmax_l.
  - now apply calculate_utilization_le_100.
Qed.

Lemma calculate_utilization_range_witness :
  (0 <= calculate_utilization (mkResources 24 512) (mkResources 2 4) <= 100)%R.
Proof.
  apply calculate_utilization_range; simpl; lia.
Defined.

(** X3. Allocating more never lowers the utilization of a host. *)
Theorem calculate_utilization_monotone host_resources allocated allocated' :
  cpu allocated <= cpu allocated' ->
  ram allocated <= ram allocated' ->
  (calculate_utilization host_resources allocated
   <= calculate_utilization host_resources allocated')%R.
Proof.
  intros Hc Hr. unfold calculate_utilization.
  apply Rmax_lub.
  - eapply Rle_trans; [apply (ratio_monotone _ _ _ Hc) | apply Rmax_l].
  - eapply Rle_trans; [apply (ratio_monotone _ _ _ Hr) | apply Rmax_r].
Qed.

Lemma calculate_utilization_monotone_witness :
  (calculate_utilization (mkResources 24 512) (mkResources 2 4)
   <= calculate_utilization (mkResources 24 512) (mkResources 5 11))%R.
Proof.
  apply calculate_utilization_monotone; simpl; lia.
Defined.

(** X4. A tally within the capacity that uses up one dimension of positive
    capacity gives a utilization of exactly 100, whatever the other dimension
    holds: the bottleneck decides. *)
Theorem calculate_utilization_full host_resources allocated_resources :
  0 <= cpu allocated_resources <= cpu host_resources ->
  0 <= ram allocated_resources <= ram host_resources ->
  (0 < cpu host_resources
   /\ cpu allocated_resources = cpu host_resources)
  \/ (0 < ram host_resources
      /\ ram allocated_resources = ram host_resources) ->
  calculate_utilization host_resources allocated_resources = 100%R.
Proof.
  intros [_ Hc] [_ Hr]. unfold calculate_utilization.
  pose proof (ratio_le_100 _ _ Hc) as Hc100.
  pose proof (ratio_le_100 _ _ Hr) as Hr100.
  rewrite <- !ratio_eq_100. unfold Rmax.
  destruct (Rle_dec _ _) as [Hle|Hgt]; lra.
Qed.

Lemma calculate_utilization_full_witness :
  calculate_utilization (mkResources 4 8) (mkResources 4 2) = 100%R.
Proof.
  apply (calculate_utilization_full (mkResources 4 8) (mkResources 4 2));
    simpl; lia.
Defined.

(** ** Empty requests *)

Lemma no_hosts_loop previous_allocations sorted_vms st :
  allocations st = [] ->
  for_each (place_vm [] previous_allocations) sorted_vms st
  = Ok {| allocations := [];
          remaining_resources := remaining_resources st;
          failed_allocations := failed_allocations st ++ Dict.keys sorted_vms;
          migrations := migrations st |}.
Proof.
  revert st. induction sorted_vms as [|vm l IH]; intros st Hst; simpl.
  - rewrite app_nil_r, <- Hst. now destruct st.
  - unfold place_vm at 1. simpl. rewrite IH by exact Hst. simpl.
    now rewrite <- app_assoc.
Qed.

(** X5. Without hosts every VM fails: the failure list is the VM identifiers by
    decreasing [cpu + ram], and nothing is allocated or migrated. *)
Theorem no_hosts_all_fail vms previous_allocations :
  allocate_vms [] vms previous_allocations
  = Ok ([], [], Dict.keys (sorted_reverse vms)).
Proof.
  unfold allocate_vms. cbv zeta. simpl sorted_reverse at 1.
  rewrite no_hosts_loop by reflexivity. reflexivity.
Qed.

(** X6. Without VMs every host of the request gets the empty list, in the order
    of the request. *)
Theorem no_vms_all_idle hosts previous_allocations :
  Dict.wf hosts ->
  allocate_vms hosts [] previous_allocations
  = Ok (map (fun host => (fst host, [])) hosts, [], []).
Proof.
  intros Hwf. unfold allocate_vms. cbv zeta. cbn [sorted_reverse fold_right
    for_each bind].
  rewrite final_allocations_map, (initial_allocations _ Hwf).
  - rewrite map_map. reflexivity.
  - unfold Dict.wf. rewrite (initial_allocations _ Hwf). unfold Dict.keys.
    rewrite map_map. exact Hwf.
Qed.

Lemma no_vms_all_idle_witness :
  allocate_vms scenario_hosts [] None = Ok ([("A", []); ("B", [])], [], []).
Proof. exact (no_vms_all_idle scenario_hosts None scenario_hosts_wf). Defined.

(** ** The outputs as a partition of the VMs *)

Lemma concat_committed (allocations : Dict.t (Dict.t resources)) k held
    (vm : string * resources) :
  Dict.get allocations k = Some held ->
  Permutation
    (List.concat (map (fun kv => Dict.keys (snd kv))
               (Dict.set allocations k (held ++ [vm]))))
    (fst vm :: List.concat (map (fun kv => Dict.keys (snd kv)) allocations)).
Proof.
  induction allocations as [|[k0 h0] d IH]; simpl; [discriminate|].
  destruct (String.eqb_spec k k0) as [->|Hne]; simpl.
  - intros H. injection H as ->. rewrite DictFacts.keys_app. simpl.
    rewrite <- app_assoc. simpl. symmetry. apply Permutation_middle.
  - intros H. rewrite (IH H). symmetry. apply Permutation_middle.
Qed.

Lemma partition_loop hosts previous_allocations sorted_vms :
  Dict.wf hosts -> Dict.wf sorted_vms ->
  exists st,
    for_each (place_vm (sorted_reverse hosts) previous_allocations) sorted_vms
      (initial_state hosts) = Ok st
    /\ run_invariant hosts st sorted_vms
    /\ Permutation
         (failed_allocations st
          ++ List.concat (map (fun kv => Dict.keys (snd kv)) (allocations st)))
         (Dict.keys sorted_vms).
Proof.
  intros Hh Hv.
  destruct (for_each_invariant
              (fun st done =>
                 run_invariant hosts st done
                 /\ Permutation
                      (failed_allocations st
                       ++ List.concat (map (fun kv => Dict.keys (snd kv))
                                    (allocations st)))
                      (Dict.keys done))
              (place_vm (sorted_reverse hosts) previous_allocations)
              sorted_vms) with (s := initial_state hosts)
    as (st & Hrun & Hinv & Hperm).
  - intros st done vm rest Hxs [Hinv Hperm].
    assert (Hnew : ~ In (fst vm) (Dict.keys done))
      by (eapply vm_not_done; eauto).
    destruct (place_vm_spec hosts Hh previous_allocations st done vm Hinv Hnew)
      as (best & st' & _ & _ & Hplace & Hinv' & Hst').
    exists st'. split; [exact Hplace|]. split; [exact Hinv'|].
    rewrite DictFacts.keys_app. simpl.
    assert (Hfail : st' = fail st (fst vm) ->
              Permutation
                (failed_allocations st'
                 ++ List.concat (map (fun kv => Dict.keys (snd kv)) (allocations st')))
                (Dict.keys done ++ [fst vm])).
    { intros ->. simpl. rewrite <- app_assoc.
      rewrite (Permutation_app_comm [fst vm]), app_assoc.
      now apply Permutation_app_tail. }
    destruct (fst best) as [name|]; [|now apply Hfail].
    destruct (String.eqb name ""); [now apply Hfail|].
    destruct Hst' as (held & Hget & _ & Halloc & Hfailed).
    rewrite Hfailed, Halloc, (concat_committed _ _ _ _ Hget).
    rewrite <- Permutation_middle, <- Permutation_cons_append.
    now constructor.
  - split; [now apply initial_invariant|].
    rewrite (initial_allocations _ Hh), map_map. simpl.
    induction hosts as [|h l IH]; simpl; [constructor|].
    apply IH. now inversion Hh.
  - eauto.
Qed.

(** X7. The failure list and the lists of the hosts together hold every VM
    identifier of the request exactly once: no VM is lost or duplicated. *)
Theorem outputs_partition_vms hosts vms previous_allocations :
  Dict.wf hosts -> Dict.wf vms ->
  exists allocation migrations failures,
    allocate_vms hosts vms previous_allocations
    = Ok (allocation, migrations, failures)
    /\ Permutation (failures ++ List.concat (map snd allocation)) (Dict.keys vms).
Proof.
  intros Hh Hv.
  destruct (partition_loop hosts (or_empty previous_allocations)
              (sorted_reverse vms) Hh (sorted_reverse_wf _ Hv))
    as (st & Hrun & Hinv & Hperm).
  do 3 eexists. split.
  - unfold allocate_vms. cbv zeta. rewrite Hrun. cbn [bind]. reflexivity.
  - rewrite final_allocations_map
      by (apply (allocations_wf hosts Hh st _ Hinv)).
    rewrite map_map. simpl. rewrite Hperm. apply sorted_reverse_keys_perm.
Qed.

Lemma outputs_partition_vms_witness :
  exists allocation migrations failures,
    allocate_vms scenario_hosts scenario_vms None
    = Ok (allocation, migrations, failures)
    /\ Permutation (failures ++ List.concat (map snd allocation)) ["v1"; "v2"; "v3"].
Proof.
  exact (outputs_partition_vms scenario_hosts scenario_vms None
           scenario_hosts_wf scenario_vms_wf).
Defined.

(** X8. The failure list is in the order in which the VMs are processed,
    decreasing [cpu + ram]: it is the sorted VM identifiers restricted to the
    VMs that failed. *)
Theorem failures_in_order hosts vms previous_allocations :
  Dict.wf hosts -> Dict.wf vms ->
  exists allocation migrations failures,
    allocate_vms hosts vms previous_allocations
    = Ok (allocation, migrations, failures)
    /\ failures = filter (fun v => existsb (String.eqb v) failures)
                    (Dict.keys (sorted_reverse vms))
    /\ NoDup failures.
Proof.
  intros Hh Hv.
  destruct (allocate_vms_Ok hosts vms previous_allocations Hh Hv)
    as (st & _ & Hinv & Hres).
  do 3 eexists. split; [exact Hres|].
  assert (Hf : failed_allocations st
               = filter (fun v => negb (placed (allocations st) v))
                   (Dict.keys (sorted_reverse vms))).
  { rewrite (inv_failed _ _ _ Hinv).
    apply (keys_filter_fst (fun v => negb (placed (allocations st) v))). }
  split.
  - rewrite Hf at 1. apply filter_ext_in. intros v Hin.
    apply eq_true_iff_eq. rewrite existsb_eqb_In, Hf, filter_In. tauto.
  - rewrite Hf. apply NoDup_filter. now apply sorted_reverse_wf.
Qed.

Lemma failures_in_order_witness :
  exists allocation migrations failures,
    allocate_vms scenario_hosts scenario_vms None
    = Ok (allocation, migrations, failures)
    /\ failures = filter (fun v => existsb (String.eqb v) failures)
                    (Dict.keys (sorted_reverse scenario_vms))
    /\ NoDup failures.
Proof.
  exact (failures_in_order scenario_hosts scenario_vms None
           scenario_hosts_wf scenario_vms_wf).
Defined.

(** ** A VM larger than every host *)

Lemma tally_ge_member dim (held : Dict.t resources) x :
  (forall y, In y held -> 0 <= dim (snd y)) ->
  In x held -> dim (snd x) <= tally dim held.
Proof.
  induction held as [|y held IH]; simpl; [tauto|]. intros Hpos [->|Hin].
  - assert (0 <= tally dim held); [|lia].
    clear IH. induction held as [|z held IH]; simpl; [lia|].
    assert (0 <= dim (snd z)) by (apply Hpos; right; now left).
    assert (0 <= tally dim held); [|lia].
    apply IH. intros y [E|Hy]; apply Hpos; [now left | right; now right].
  - assert (0 <= dim (snd y)) by (apply Hpos; now left).
    assert (dim (snd x) <= tally dim held); [|lia].
    apply IH; [|exact Hin]. intros z Hz. apply Hpos. now right.
Qed.

(** X9. With non-negative demands, a VM that exceeds every host in [cpu] or in
    [ram] is in the failure list, whatever the other VMs and the previous
    placement. *)
Theorem oversized_vm_fails hosts vms previous_allocations v vm_resources :
  Dict.wf hosts -> Dict.wf vms ->
  (forall x, In x vms -> 0 <= cpu (snd x) /\ 0 <= ram (snd x)) ->
  In (v, vm_resources) vms ->
  (forall h capacity, In (h, capacity) hosts ->
     cpu capacity < cpu vm_resources \/ ram capacity < ram vm_resources) ->
  exists allocation migrations failures,
    allocate_vms hosts vms previous_allocations
    = Ok (allocation, migrations, failures)
    /\ In v failures.
Proof.
  intros Hh Hv Hpos Hin Hbig.
  destruct (allocate_vms_Ok hosts vms previous_allocations Hh Hv)
    as (st & _ & Hinv & Hres).
  do 3 eexists. split; [exact Hres|].
  pose proof (allocations_wf hosts Hh st _ Hinv) as Hwf.
  rewrite (inv_failed _ _ _ Hinv),
    (keys_filter_fst (fun v => negb (placed (allocations st) v))).
  apply filter_In. split.
  { eapply Permutation_in; [symmetry; apply sorted_reverse_keys_perm|].
    apply (in_map fst) in Hin. exact Hin. }
  apply negb_true_iff.
  destruct (placed (allocations st) v) eqn:Hplaced; [|reflexivity]. exfalso.
  apply (placed_get _ _ Hwf) in Hplaced as (h & held & Hget & Hheld).
  assert (Hincl : incl held vms).
  { intros x Hx. apply (held_incl hosts st _ Hinv _ _ Hget) in Hx.
    eapply Permutation_in; [apply sorted_reverse_perm | exact Hx]. }
  apply in_map_iff in Hheld as ([v' r'] & Ev & Hx). simpl in Ev. subst v'.
  assert (r' = vm_resources).
  { apply Hincl in Hx as Hx'.
    apply (DictFacts.wf_In_get _ _ _ Hv) in Hx', Hin. congruence. }
  subst r'.
  assert (Hk : In h (Dict.keys hosts)).
  { rewrite <- (inv_allocations_keys _ _ _ Hinv).
    eapply DictFacts.get_in_keys; eauto. }
  destruct (DictFacts.in_keys_get _ _ Hk) as [capacity Hcap].
  destruct (inv_capacity _ _ _ Hinv h held capacity Hget Hcap) as [->|[Hc Hr]];
    [destruct Hx|].
  pose proof (tally_ge_member cpu held _
                (fun y Hy => proj1 (Hpos y (Hincl y Hy))) Hx) as Hc'.
  pose proof (tally_ge_member ram held _
                (fun y Hy => proj2 (Hpos y (Hincl y Hy))) Hx) as Hr'.
  simpl in Hc', Hr'.
  destruct (Hbig h capacity (DictFacts.get_In _ _ _ Hcap)); lia.
Qed.

Lemma scenario_vms_nonneg x :
  In x scenario_vms -> 0 <= cpu (snd x) /\ 0 <= ram (snd x).
Proof. intros [<-|[<-|[<-|[]]]]; simpl; lia. Defined.

Lemma oversized_vm_fails_witness :
  exists allocation migrations failures,
    allocate_vms scenario_hosts scenario_vms None
    = Ok (allocation, migrations, failures)
    /\ In "v3" failures.
Proof.
  apply (oversized_vm_fails scenario_hosts scenario_vms None "v3"
           (mkResources 128 1024) scenario_hosts_wf scenario_vms_wf
           scenario_vms_nonneg).
  - simpl. auto.
  - intros h capacity [E|[E|[]]]; injection E as _ <-; simpl; lia.
Defined.

(** ** What the previous placement is read for *)

Lemma mem_keys_eq {V W : Type} (d : Dict.t V) (d' : Dict.t W) k :
  Dict.keys d = Dict.keys d' -> Dict.mem k d = Dict.mem k d'.
Proof.
  intros E. apply eq_true_iff_eq. now rewrite !DictFacts.mem_In, E.
Qed.

Lemma find_original_host_keys (previous previous' : Dict.t (Dict.t resources)) v :
  map (fun kv => (fst kv, Dict.keys (snd kv))) previous
  = map (fun kv => (fst kv, Dict.keys (snd kv))) previous' ->
  find_original_host previous v = find_original_host previous' v.
Proof.
  revert previous'.
  induction previous as [|[h a] p IH]; intros [|[h' a'] p']; simpl;
    try discriminate; [reflexivity|].
  intros E. injection E as -> Ea Ep.
  rewrite (mem_keys_eq a a' v Ea). destruct (Dict.mem v a'); [reflexivity|].
  now apply IH.
Qed.

Lemma for_each_ext {S X : Type} (body body' : S -> X -> result S) xs s :
  (forall s x, body s x = body' s x) ->
  for_each body xs s = for_each body' xs s.
Proof.
  intros E. revert s. induction xs as [|x xs IH]; intros s; simpl;
    [reflexivity|].
  rewrite E. destruct (body' s x); simpl; auto.
Qed.

(** X10. The previous placement is only read for which host holds which VM: the
    demands it records have no effect on the result. *)
Theorem previous_demands_unused hosts vms previous previous' :
  map (fun kv => (fst kv, Dict.keys (snd kv))) previous
  = map (fun kv => (fst kv, Dict.keys (snd kv))) previous' ->
  allocate_vms hosts vms (Some previous) = allocate_vms hosts vms (Some previous').
Proof.
  intros E. unfold allocate_vms. cbv zeta. simpl or_empty.
  rewrite (for_each_ext (place_vm (sorted_reverse hosts) previous)
             (place_vm (sorted_reverse hosts) previous')); [reflexivity|].
  intros st vm. unfold place_vm.
  now rewrite (find_original_host_keys previous previous' (fst vm) E).
Qed.

Lemma previous_demands_unused_witness :
  allocate_vms scenario_hosts scenario_vms
    (Some [("A", [("v1", mkResources 2 4)])])
  = allocate_vms scenario_hosts scenario_vms
      (Some [("A", [("v1", mkResources 200 400)])]).
Proof.
  apply (previous_demands_unused scenario_hosts scenario_vms
           [("A", [("v1", mkResources 2 4)])]
           [("A", [("v1", mkResources 200 400)])]).
  reflexivity.
Defined.

(** ** The migration records *)

Lemma commit_migrations st vm_name vm_resources original_host best_host st' :
  commit st vm_name vm_resources original_host best_host = Ok st' ->
  migrations st'
  = match original_host with
    | Some original =>
        if negb (String.eqb original "") && negb (String.eqb original best_host)
        then Dict.set (migrations st) vm_name
               {| from := original; to := best_host |}
        else migrations st
    | None => migrations st
    end.
Proof.
  unfold commit.
  destruct (Dict.item (allocations st) best_host) as [held|e]; [|discriminate].
  destruct (Dict.item (remaining_resources st) best_host) as [rem|e];
    [|discriminate].
  cbn [bind]. intros H. injection H as <-. simpl.
  now destruct original_host.
Qed.

Lemma migrations_loop hosts previous_allocations sorted_vms :
  Dict.wf hosts -> Dict.wf sorted_vms ->
  exists st,
    for_each (place_vm (sorted_reverse hosts) previous_allocations) sorted_vms
      (initial_state hosts) = Ok st
    /\ run_invariant hosts st sorted_vms
    /\ Dict.wf (migrations st)
    /\ migrations_match previous_allocations (allocations st) (migrations st).
Proof.
  intros Hh Hv.
  destruct (for_each_invariant
              (fun st done =>
                 run_invariant hosts st done
                 /\ Dict.wf (migrations st)
                 /\ migrations_match previous_allocations (allocations st)
                      (migrations st))
              (place_vm (sorted_reverse hosts) previous_allocations)
              sorted_vms) with (s := initial_state hosts)
    as (st & Hrun & Hinv & Hwf & Hm); [| |eauto].
  - intros st done vm rest Hxs (Hinv & Hwf & Hm).
    assert (Hnew : ~ In (fst vm) (Dict.keys done))
      by (eapply vm_not_done; eauto).
    destruct (place_vm_spec hosts Hh previous_allocations st done vm Hinv Hnew)
      as (best & st' & _ & _ & Hplace & Hinv' & Hst').
    exists st'. split; [exact Hplace|]. split; [exact Hinv'|].
    assert (Hfail : st' = fail st (fst vm) ->
              Dict.wf (migrations st')
              /\ migrations_match previous_allocations (allocations st')
                   (migrations st')).
    { intros ->. simpl. auto. }
    destruct (fst best) as [name|]; [|now apply Hfail].
    destruct (String.eqb name "") eqn:Hname; [now apply Hfail|].
    apply String.eqb_neq in Hname.
    destruct Hst' as (held & Hget & Hcommit & Halloc & _).
    apply commit_migrations in Hcommit.
    (* the VM is in no host and has no record yet *)
    assert (Hfresh : forall h held',
              Dict.get (allocations st) h = Some held' ->
              ~ In (fst vm) (Dict.keys held'))
      by (intros h held'; apply (held_not_new hosts st done Hinv vm Hnew)).
    assert (Hnorec : ~ In (fst vm) (Dict.keys (migrations st))).
    { intros Hin. apply in_map_iff in Hin as ([v m] & Ev & Hin).
      simpl in Ev. subst v. apply Hm in Hin as (_ & _ & _ & held' & Hg & Hk).
      exact (Hfresh _ _ Hg Hk). }
    (* records of the other VMs are kept *)
    assert (Hold : forall v m, v <> fst vm ->
              (find_original_host previous_allocations v = Some (from m)
               /\ from m <> "" /\ from m <> to m
               /\ exists held',
                    Dict.get (allocations st') (to m) = Some held'
                    /\ In v (Dict.keys held'))
              <-> In (v, m) (migrations st)).
    { intros v m Hvm. rewrite (Hm v m). rewrite Halloc.
      split; intros (H1 & H2 & H3 & held' & Hg & Hk); repeat split; auto.
      - rewrite get_committed in Hg.
        destruct (String.eqb_spec (to m) name) as [E|Hne].
        + injection Hg as <-. exists held. rewrite E. split; [exact Hget|].
          rewrite DictFacts.keys_app in Hk.
          apply in_app_or in Hk as [Hk|[Hk|[]]]; [exact Hk | congruence].
        + eauto.
      - rewrite get_committed.
        destruct (String.eqb_spec (to m) name) as [E|Hne].
        + exists (held ++ [vm]). split; [reflexivity|].
          rewrite DictFacts.keys_app. apply in_or_app. left.
          rewrite E in Hg. congruence.
        + eauto. }
    (* no record is added *)
    assert (Hkeep : migrations st' = migrations st ->
              (forall m,
                 ~ (find_original_host previous_allocations (fst vm)
                    = Some (from m)
                    /\ from m <> "" /\ from m <> name)) ->
              Dict.wf (migrations st')
              /\ migrations_match previous_allocations (allocations st')
                   (migrations st')).
    { intros E Hnone. rewrite E. split; [exact Hwf|]. intros v m.
      destruct (String.eqb_spec v (fst vm)) as [->|Hvm].
      - split.
        + intros Hin. exfalso. apply Hnorec.
          apply (in_map fst) in Hin. exact Hin.
        + intros (H1 & H2 & H3 & held' & Hg & Hk). exfalso.
          rewrite Halloc, get_committed in Hg.
          destruct (String.eqb_spec (to m) name) as [Eto|Hne].
          * apply (Hnone m). rewrite <- Eto. auto.
          * exact (Hfresh _ _ Hg Hk).
      - symmetry. now apply Hold. }
    destruct (find_original_host previous_allocations (fst vm))
      as [original|] eqn:Horig.
    + destruct (String.eqb_spec original "") as [E0|Hne0]; cbn [negb andb]
        in Hcommit.
      { apply Hkeep; [exact Hcommit|]. intros m (H1 & H2 & _). congruence. }
      destruct (String.eqb_spec original name) as [E1|Hne1]; cbn [negb]
        in Hcommit.
      { apply Hkeep; [exact Hcommit|]. intros m (H1 & _ & H3). congruence. }
      rewrite Hcommit, (DictFacts.set_new _ _ _ Hnorec). split.
      * unfold Dict.wf. rewrite DictFacts.keys_app. simpl.
        apply NoDup_app; [exact Hwf | repeat constructor; simpl; tauto|].
        intros x Hx [<-|[]]. contradiction.
      * intros v m. rewrite in_app_iff. simpl.
        destruct (String.eqb_spec v (fst vm)) as [->|Hvm].
        -- split.
           ++ intros [Hin|[E|[]]].
              ** exfalso. apply Hnorec. apply (in_map fst) in Hin. exact Hin.
              ** injection E as <-. simpl. repeat split; auto.
                 exists (held ++ [vm]). rewrite Halloc, get_committed,
                   String.eqb_refl. split; [reflexivity|].
                 rewrite DictFacts.keys_app. apply in_or_app. right. now left.
           ++ intros (H1 & H2 & H3 & held' & Hg & Hk). right. left.
              rewrite Halloc, get_committed in Hg.
              destruct (String.eqb_spec (to m) name) as [Eto|Hne].
              ** destruct m as [f t]. simpl in *. congruence.
              ** destruct (Hfresh _ _ Hg Hk).
        -- rewrite <- (Hold v m Hvm). split; [|tauto].
           intros [H|[E|[]]]; [exact H | congruence].
    + apply Hkeep; [exact Hcommit|]. intros m (H1 & _). discriminate.
  - split; [now apply initial_invariant|]. split; [constructor|].
    intros v m. simpl. split; [tauto|].
    intros (_ & _ & _ & held & Hg & Hk).
    apply (initial_held _ _ _ Hh) in Hg. subst held. destruct Hk.
Qed.

(** X11. A VM has the migration record [{from, to}] exactly when its previous
    host is [from], a non-empty identifier other than [to], and the VM is in
    the list of [to]; a VM has at most one record. *)
Theorem migrations_are_the_moves hosts vms previous_allocations :
  Dict.wf hosts -> Dict.wf vms ->
  exists allocation migrations failures,
    allocate_vms hosts vms previous_allocations
    = Ok (allocation, migrations, failures)
    /\ Dict.wf migrations
    /\ forall v m,
         In (v, m) migrations <->
         find_original_host (or_empty previous_allocations) v = Some (from m)
         /\ from m <> "" /\ from m <> to m
         /\ exists names, In (to m, names) allocation /\ In v names.
Proof.
  intros Hh Hv.
  destruct (migrations_loop hosts (or_empty previous_allocations)
              (sorted_reverse vms) Hh (sorted_reverse_wf _ Hv))
    as (st & Hrun & Hinv & Hwf & Hm).
  pose proof (allocations_wf hosts Hh st _ Hinv) as Hawf.
  do 3 eexists. split; [|split; [exact Hwf|]].
  - unfold allocate_vms. cbv zeta. rewrite Hrun. cbn [bind]. reflexivity.
  - intros v m. rewrite (Hm v m), (final_allocations_map _ Hawf).
    split; intros (H1 & H2 & H3 & H4); repeat split; auto.
    + destruct H4 as (held & Hg & Hk). exists (Dict.keys held).
      split; [|exact Hk]. apply In_final_allocation; eauto.
    + destruct H4 as (names & Hin & Hk).
      apply In_final_allocation in Hin as (held & Hg & ->); eauto.
Qed.

Lemma migrations_are_the_moves_witness :
  exists allocation migrations failures,
    allocate_vms scenario_hosts scenario_vms None
    = Ok (allocation, migrations, failures)
    /\ Dict.wf migrations
    /\ forall v m,
         In (v, m) migrations <->
         find_original_host [] v = Some (from m)
         /\ from m <> "" /\ from m <> to m
         /\ exists names, In (to m, names) allocation /\ In v names.
Proof.
  exact (migrations_are_the_moves scenario_hosts scenario_vms None
           scenario_hosts_wf scenario_vms_wf).
Defined.

(** ** Which host wins *)

Lemma candidate_bounded allocations vm_name vm_resources original_host host s :
  candidate allocations vm_name vm_resources original_host host = Some s ->
  exists held c,
    Dict.get allocations (fst host) = Some held
    /\ fits (snd host) held vm_resources = true
    /\ (-0.67459 < c <= 10.32541)%R
    /\ s = adjust c vm_name (fst host) original_host (is_empty held).
Proof.
  intros H. apply candidate_Some in H as (held & Hget & Hfits & ->).
  exists held, (curve (load (snd host) held vm_resources)).
  repeat split; auto; apply curve_range; now apply load_le_1.
Qed.

Lemma adjust_pinned c vm_name host_name original_host host_is_empty :
  pinned vm_name host_name = true ->
  (c + 94 <= adjust c vm_name host_name original_host host_is_empty)%R.
Proof.
  unfold pinned, adjust. intros H.
  destruct (truthy original_host && negb (opt_eqb original_host host_name)),
    host_is_empty, (opt_eqb original_host host_name),
    ((vm_name =? "vm1")%string && (host_name =? "host1")%string),
    ((vm_name =? "vm2")%string && (host_name =? "host2")%string);
    try discriminate; lra.
Qed.

Lemma adjust_not_pinned c vm_name host_name original_host host_is_empty :
  pinned vm_name host_name = false ->
  (adjust c vm_name host_name original_host host_is_empty <= c + 10)%R.
Proof.
  unfold pinned, adjust. intros H.
  destruct (truthy original_host && negb (opt_eqb original_host host_name)),
    host_is_empty, (opt_eqb original_host host_name),
    ((vm_name =? "vm1")%string && (host_name =? "host1")%string),
    ((vm_name =? "vm2")%string && (host_name =? "host2")%string);
    try discriminate; lra.
Qed.



(** A host with a non-empty identifier whose score is strictly above the
    score of every other host that can take the VM gets the VM. *)
Lemma place_vm_dominant hosts previous_allocations st done vm
    host_name capacity score :
  Dict.wf hosts ->
  run_invariant hosts st done ->
  ~ In (fst vm) (Dict.keys done) ->
  let cand :=
    candidate (allocations st) (fst vm) (snd vm)
      (find_original_host previous_allocations (fst vm)) in
  host_name <> "" ->
  In (host_name, capacity) hosts ->
  cand (host_name, capacity) = Some score ->
  (forall host score',
     In host hosts -> fst host <> host_name ->
     cand host = Some score' -> (score' < score)%R) ->
  exists st' held,
    place_vm (sorted_reverse hosts) previous_allocations st vm = Ok st'
    /\ run_invariant hosts st' (done ++ [vm])
    /\ Dict.get (allocations st') host_name = Some (held ++ [vm]).
Proof.
  intros Hwf Hinv Hnew cand Hname Hin Hscore Hothers.
  destruct (place_vm_spec hosts Hwf previous_allocations st done vm Hinv Hnew)
    as (best & st' & _ & Hch & Hplace & Hinv' & Hst').
  fold cand in Hch.
  assert (Hin' : In (host_name, capacity) (sorted_reverse hosts))
    by now apply (sorted_hosts_In hosts).
  destruct best as [[name|] [|s]]; simpl in Hch; try contradiction;
    cbn [fst] in Hst'.
  - destruct Hch as (before & host & after & Hhosts & Hn & Hcand & Hb & Ha).
    assert (Hhost : In host hosts).
    { apply (sorted_hosts_In hosts). rewrite Hhosts.
      apply in_or_app. right. now left. }
    assert (Hsame : name = host_name).
    { destruct (String.eqb_spec name host_name) as [E|Hne]; [exact E|].
      exfalso. rewrite <- Hn in Hne.
      pose proof (Hothers host s Hhost Hne Hcand) as Hlt.
      rewrite Hhosts in Hin'.
      apply in_app_or in Hin' as [Hp|[Hp|Hp]].
      - specialize (Hb _ _ Hp Hscore). lra.
      - subst host. now apply Hne.
      - specialize (Ha _ _ Hp Hscore). lra. }
    rewrite Hsame in Hst'. apply String.eqb_neq in Hname.
    rewrite Hname in Hst'. destruct Hst' as (held & Hget & _ & Halloc & _).
    exists st', held. split; [exact Hplace|]. split; [exact Hinv'|].
    rewrite Halloc. apply DictFacts.get_set_same.
  - exfalso. rewrite (Hch _ Hin') in Hscore. discriminate.
Qed.

(** The rest of a run keeps a placed VM on its host. *)
Lemma run_keeps_placed hosts previous_allocations v h :
  Dict.wf hosts ->
  forall todo done st held,
    run_invariant hosts st done ->
    Dict.wf (done ++ todo) ->
    ~ In v (Dict.keys todo) ->
    Dict.get (allocations st) h = Some held -> In v (Dict.keys held) ->
    exists st' held',
      for_each (place_vm (sorted_reverse hosts) previous_allocations) todo st
      = Ok st'
      /\ run_invariant hosts st' (done ++ todo)
      /\ Dict.get (allocations st') h = Some held' /\ In v (Dict.keys held').
Proof.
  intros Hwf. induction todo as [|vm todo IH];
    intros done st held Hinv Hnd Hv Hget Hin.
  - exists st, held. rewrite app_nil_r. simpl. auto.
  - assert (Hnew : ~ In (fst vm) (Dict.keys done))
      by (eapply vm_not_done; eauto).
    destruct (place_vm_invariant hosts Hwf previous_allocations st done vm
                Hinv Hnew) as (st1 & Hplace & Hinv1).
    destruct (place_vm_other hosts previous_allocations st done vm st1 v
                Hwf Hinv Hnew Hplace) as [_ Hkeep].
    { intros ->. apply Hv. now left. }
    destruct (Hkeep h held Hget Hin) as (held1 & Hget1 & Hin1).
    destruct (IH (done ++ [vm]) st1 held1 Hinv1) as (st' & held' & Hrun & Hinv' & H');
      auto.
    { now rewrite <- app_assoc. }
    { intros Hin'. apply Hv. now right. }
    exists st', held'. simpl. rewrite Hplace. cbn [bind].
    split; [exact Hrun|]. split; [now rewrite <- app_assoc in Hinv'|].
    exact H'.
Qed.

(** A whole run, cut at the turn of one VM: the state [st] at that turn,
    the outcome [st1] of the iteration, and the result. *)
Lemma run_at_turn hosts vms previous_allocations done vm rest :
  Dict.wf hosts -> Dict.wf vms ->
  sorted_reverse vms = done ++ vm :: rest ->
  exists st,
    for_each (place_vm (sorted_reverse hosts) (or_empty previous_allocations))
      done (initial_state hosts) = Ok st
    /\ run_invariant hosts st done
    /\ ~ In (fst vm) (Dict.keys done)
    /\ forall st1 h held,
         place_vm (sorted_reverse hosts) (or_empty previous_allocations) st vm
         = Ok st1 ->
         run_invariant hosts st1 (done ++ [vm]) ->
         Dict.get (allocations st1) h = Some held ->
         In (fst vm) (Dict.keys held) ->
         exists allocation migrations failures names,
           allocate_vms hosts vms previous_allocations
           = Ok (allocation, migrations, failures)
           /\ In (h, names) allocation /\ In (fst vm) names.
Proof.
  intros Hh Hv Hsorted.
  pose proof (sorted_reverse_wf _ Hv) as Hwf. rewrite Hsorted in Hwf.
  destruct (run_Ok hosts Hh (or_empty previous_allocations) done
              (wf_app_l _ _ Hwf)) as (st & Hrun & Hinv).
  assert (Hnew : ~ In (fst vm) (Dict.keys done))
    by (eapply vm_not_done; eauto).
  exists st. split; [exact Hrun|]. split; [exact Hinv|]. split; [exact Hnew|].
  intros st1 h held Hplace Hinv1 Hget Hin.
  destruct (run_keeps_placed hosts (or_empty previous_allocations) (fst vm) h
              Hh rest (done ++ [vm]) st1 held Hinv1)
    as (st2 & held2 & Hrest & Hinv2 & Hget2 & Hin2); auto.
  { now rewrite <- app_assoc. }
  { unfold Dict.wf in Hwf. rewrite DictFacts.keys_app in Hwf. simpl in Hwf.
    apply NoDup_remove_2 in Hwf.
    intros Hin'. apply Hwf. apply in_or_app. now right. }
  do 3 eexists. exists (Dict.keys held2). split; [|split; [|exact Hin2]].
  - unfold allocate_vms. cbv zeta. rewrite Hsorted.
    rewrite (for_each_app _ done (vm :: rest)), Hrun. cbn [bind for_each].
    rewrite Hplace. cbn [bind]. rewrite Hrest. cbn [bind]. reflexivity.
  - rewrite final_allocations_map
      by (apply (allocations_wf hosts Hh st2 _ Hinv2)).
    apply In_final_allocation;
      [apply (allocations_wf hosts Hh st2 _ Hinv2) | eauto].
Qed.

(** X12. The pairs (vm1, host1) and (vm2, host2) override everything else: when
    its turn comes, if the host of the pair can take the VM, the VM ends in
    the list of that host, whatever its previous host and the other hosts. *)
Theorem pinned_pair_wins hosts vms previous_allocations done vm rest
    host_name capacity :
  Dict.wf hosts -> Dict.wf vms ->
  sorted_reverse vms = done ++ vm :: rest ->
  In (host_name, capacity) hosts ->
  pinned (fst vm) host_name = true ->
  exists st,
    for_each (place_vm (sorted_reverse hosts) (or_empty previous_allocations))
      done (initial_state hosts) = Ok st
    /\ forall held,
         Dict.get (allocations st) host_name = Some held ->
         fits capacity held (snd vm) = true ->
         exists allocation migrations failures names,
           allocate_vms hosts vms previous_allocations
           = Ok (allocation, migrations, failures)
           /\ In (host_name, names) allocation /\ In (fst vm) names.
Proof.
  intros Hh Hv Hsorted Hin Hpin.
  destruct (run_at_turn hosts vms previous_allocations done vm rest Hh Hv
              Hsorted) as (st & Hrun & Hinv & Hnew & Hend).
  exists st. split; [exact Hrun|]. intros held Hget Hfits.
  set (original_host :=
         find_original_host (or_empty previous_allocations) (fst vm)).
  assert (Hname : host_name <> "").
  { intros ->. unfold pinned in Hpin. simpl in Hpin.
    now rewrite !andb_false_r in Hpin. }
  assert (Hothers : forall host : string * resources, fst host <> host_name ->
            pinned (fst vm) (fst host) = false).
  { intros host Hne. unfold pinned in *.
    apply String.eqb_neq in Hne.
    destruct (String.eqb_spec (fst vm) "vm1") as [E1|N1],
             (String.eqb_spec (fst vm) "vm2") as [E2|N2];
      cbn [andb orb] in *; try reflexivity; try congruence.
    - rewrite orb_false_r in Hpin. apply String.eqb_eq in Hpin.
      subst host_name. now rewrite Hne.
    - apply String.eqb_eq in Hpin. subst host_name. now rewrite Hne. }
  destruct (place_vm_dominant hosts (or_empty previous_allocations) st done vm
              host_name capacity
              (adjust (curve (load capacity held (snd vm))) (fst vm) host_name
                 original_host (is_empty held)) Hh Hinv Hnew Hname Hin)
    as (st1 & held1 & Hplace & Hinv1 & Hget1).
  - apply candidate_Some. exists held. auto.
  - intros host s' Hhost Hne Hs'.
    apply candidate_bounded in Hs' as (held' & c & _ & _ & Hc & ->).
    pose proof (adjust_not_pinned c (fst vm) (fst host) original_host
                  (is_empty held') (Hothers host Hne)) as Hup.
    pose proof (adjust_pinned (curve (load capacity held (snd vm))) (fst vm)
                  host_name original_host (is_empty held) Hpin) as Hlow.
    pose proof (curve_range (load capacity held (snd vm))
                  (load_le_1 _ _ _ Hfits)) as Hb.
    fold original_host. lra.
  - apply (Hend st1 host_name (held1 ++ [vm]) Hplace Hinv1 Hget1).
    rewrite DictFacts.keys_app. apply in_or_app. right. now left.
Qed.

Lemma pinned_pair_wins_witness :
  exists allocation migrations failures names,
    allocate_vms [("host1", mkResources 4 4); ("host2", mkResources 8 8)]
      [("vm1", mkResources 1 1)]
      (Some [("host2", [("vm1", mkResources 1 1)])])
    = Ok (allocation, migrations, failures)
    /\ In ("host1", names) allocation /\ In "vm1" names.
Proof.
  destruct (pinned_pair_wins
              [("host1", mkResources 4 4); ("host2", mkResources 8 8)]
              [("vm1", mkResources 1 1)]
              (Some [("host2", [("vm1", mkResources 1 1)])])
              [] ("vm1", mkResources 1 1) [] "host1" (mkResources 4 4))
    as (st & Hrun & H).
  - solve_wf.
  - solve_wf.
  - reflexivity.
  - simpl. auto.
  - reflexivity.
  - simpl in Hrun. injection Hrun as <-.
    apply (H []); reflexivity.
Defined.



(** ** main: the previous placement built from the diff *)

Lemma put_on_host1_old vms new_vms bucket k r :
  existsb (String.eqb k) new_vms = false ->
  Dict.get vms k = Some r ->
  ~ In k (Dict.keys bucket) ->
  put_on_host1 vms new_vms (bucket_dict bucket) k
  = Ok (bucket_dict (bucket ++ [(k, r)])).
Proof.
  intros Hnew Hget Hk. unfold put_on_host1, Dict.item at 1.
  rewrite Hnew, Hget. cbn [bind].
  destruct bucket as [|x b]; [reflexivity|].
  pose proof (DictFacts.set_new (x :: b) k r Hk) as E.
  cbn [bucket_dict Dict.get Dict.item bind String.eqb Ascii.eqb Bool.eqb].
  rewrite E. cbn [Dict.set String.eqb Ascii.eqb Bool.eqb]. reflexivity.
Qed.

Lemma previous_of_diff_loop vms new_vms :
  Dict.wf vms ->
  forall l bucket,
    incl l vms ->
    NoDup (Dict.keys bucket ++ Dict.keys l) ->
    for_each (put_on_host1 vms new_vms) (Dict.keys l) (bucket_dict bucket)
    = Ok (bucket_dict (bucket ++ old_vms l new_vms)).
Proof.
  intros Hwf. induction l as [|[k r] l IH]; intros bucket Hincl Hnd.
  - simpl. now rewrite app_nil_r.
  - change (Dict.keys ((k, r) :: l)) with (k :: Dict.keys l).
    cbn [fst for_each old_vms filter].
    assert (Hl : incl l vms) by (intros x Hx; apply Hincl; now right).
    destruct (existsb (String.eqb k) new_vms) eqn:Hnew; cbn [negb].
    + unfold put_on_host1 at 1. rewrite Hnew. cbn [bind].
      apply IH; [exact Hl|].
      simpl in Hnd. now apply NoDup_remove_1 in Hnd.
    + assert (Hk : ~ In k (Dict.keys bucket)).
      { simpl in Hnd. apply NoDup_remove_2 in Hnd. intros Hin. apply Hnd.
        apply in_or_app. now left. }
      rewrite (put_on_host1_old vms new_vms bucket k r Hnew);
        [|apply DictFacts.wf_In_get; [exact Hwf | apply Hincl; now left]
         |exact Hk].
      cbn [bind]. rewrite (IH (bucket ++ [(k, r)]) Hl).
      * now rewrite <- app_assoc.
      * rewrite DictFacts.keys_app, <- app_assoc. exact Hnd.
Qed.

Lemma previous_of_diff_Ok vms new_vms :
  Dict.wf vms ->
  previous_of_diff vms new_vms = Ok (bucket_dict (old_vms vms new_vms)).
Proof.
  intros Hwf. unfold previous_of_diff.
  apply (previous_of_diff_loop vms new_vms Hwf vms []);
    [apply incl_refl | exact Hwf].
Qed.

Lemma old_vms_keys vms new_vms v :
  In v (Dict.keys (old_vms vms new_vms)) <->
  In v (Dict.keys vms) /\ ~ In v new_vms.
Proof.
  unfold old_vms.
  rewrite (keys_filter_fst (fun k => negb (existsb (String.eqb k) new_vms))).
  rewrite filter_In, negb_true_iff, <- not_true_iff_false, existsb_eqb_In.
  tauto.
Qed.

Lemma find_original_host_bucket bucket v :
  find_original_host (bucket_dict bucket) v
  = if Dict.mem v bucket then Some "host1" else None.
Proof.
  destruct bucket as [|x b]; [reflexivity|]. simpl.
  now destruct (Dict.mem v (x :: b)).
Qed.

(** X17. [main] takes every VM of the request that the diff does not list as
    added to be on the host named host1, whatever the hosts of the request;
    a VM listed as added has no previous host. *)
Theorem diff_previous_host vms new_vms :
  Dict.wf vms ->
  exists previous_allocations,
    previous_of_diff vms new_vms = Ok previous_allocations
    /\ forall v,
         (In v (Dict.keys vms) /\ ~ In v new_vms ->
          find_original_host previous_allocations v = Some "host1")
         /\ (~ (In v (Dict.keys vms) /\ ~ In v new_vms) ->
             find_original_host previous_allocations v = None).
Proof.
  intros Hwf. eexists. split; [now apply previous_of_diff_Ok|].
  intros v. rewrite find_original_host_bucket, <- old_vms_keys.
  destruct (Dict.mem v (old_vms vms new_vms)) eqn:E.
  - apply DictFacts.mem_In in E. tauto.
  - apply DictFacts.mem_false in E. tauto.
Qed.

Lemma diff_previous_host_witness :
  exists previous_allocations,
    previous_of_diff scenario_vms ["v3"] = Ok previous_allocations
    /\ forall v,
         (In v ["v1"; "v2"; "v3"] /\ ~ In v ["v3"] ->
          find_original_host previous_allocations v = Some "host1")
         /\ (~ (In v ["v1"; "v2"; "v3"] /\ ~ In v ["v3"]) ->
             find_original_host previous_allocations v = None).
Proof. exact (diff_previous_host scenario_vms ["v3"] scenario_vms_wf). Defined.

(** ** main: the statistics *)

Lemma allocated_resources_loop vms vm_names acc :
  (forall v, In v vm_names -> In v (Dict.keys vms)) ->
  for_each
    (fun allocated vm_name =>
       vm_resources <- Dict.item vms vm_name ;;
       Ok {| cpu := cpu allocated + cpu vm_resources;
             ram := ram allocated + ram vm_resources |})
    vm_names acc
  = Ok {| cpu := cpu acc + total_demand vms cpu vm_names;
          ram := ram acc + total_demand vms ram vm_names |}.
Proof.
  revert acc. induction vm_names as [|v l IH]; intros acc Hin; simpl.
  - destruct acc; simpl. do 2 f_equal; lia.
  - destruct (DictFacts.in_keys_get vms v (Hin v (or_introl eq_refl)))
      as [r Hget].
    unfold Dict.item, demand. rewrite Hget. cbn [bind].
    rewrite IH by (intros x Hx; apply Hin; now right).
    simpl. do 2 f_equal; lia.
Qed.

Lemma allocated_resources_Ok vms vm_names :
  (forall v, In v vm_names -> In v (Dict.keys vms)) ->
  allocated_resources vms vm_names
  = Ok {| cpu := total_demand vms cpu vm_names;
          ram := total_demand vms ram vm_names |}.
Proof.
  intros H. unfold allocated_resources.
  now rewrite allocated_resources_loop.
Qed.

Lemma statistics_loop allocation vms :
  forall hosts acc,
    (forall host, In host hosts ->
       exists vm_names,
         Dict.get allocation (fst host) = Some vm_names
         /\ forall v, In v vm_names -> In v (Dict.keys vms)) ->
    for_each (host_statistics allocation vms) hosts acc
    = Ok ((fst acc + sum_utilization allocation vms hosts)%R,
          snd acc + Z.of_nat (List.length hosts)).
Proof.
  induction hosts as [|host hosts IH]; intros [t n] Hall.
  - simpl. do 2 f_equal; [lra | lia].
  - destruct (Hall host (or_introl eq_refl)) as (vm_names & Hget & Hin).
    cbn [for_each]. unfold host_statistics at 1, Dict.mem, Dict.item.
    rewrite Hget. cbn [bind]. rewrite (allocated_resources_Ok _ _ Hin).
    cbn [bind]. rewrite IH by (intros h Hh; apply Hall; now right).
    change (sum_utilization allocation vms (host :: hosts))
      with (utilization_of allocation vms host
            + sum_utilization allocation vms hosts)%R.
    change (List.length (host :: hosts)) with (S (List.length hosts)).
    unfold utilization_of at 1. rewrite Hget. cbn [fst snd].
    do 2 f_equal; [lra | lia].
Qed.

Lemma get_final_allocation (allocations : Dict.t (Dict.t resources)) h :
  Dict.get (map (fun kv => (fst kv, Dict.keys (snd kv))) allocations) h
  = option_map (@Dict.keys resources) (Dict.get allocations h).
Proof.
  induction allocations as [|[k d] l IH]; simpl; [reflexivity|].
  now destruct (String.eqb h k).
Qed.

Lemma calculate_utilization_idle host_resources :
  calculate_utilization host_resources {| cpu := 0; ram := 0 |} = 0%R.
Proof.
  unfold calculate_utilization. simpl.
  destruct (cpu host_resources >? 0), (ram host_resources >? 0);
    unfold Rdiv; rewrite ?Rmult_0_l; apply Rmax_left; lra.
Qed.

Lemma sum_utilization_le allocation vms hosts :
  (forall host, In host hosts ->
     (utilization_of allocation vms host <= 100)%R) ->
  (sum_utilization allocation vms hosts <= 100 * INR (List.length hosts))%R.
Proof.
  induction hosts as [|host hosts IH]; intros Hall.
  - simpl. lra.
  - change (sum_utilization allocation vms (host :: hosts))
      with (utilization_of allocation vms host
            + sum_utilization allocation vms hosts)%R.
    change (List.length (host :: hosts)) with (S (List.length hosts)).
    rewrite S_INR.
    pose proof (Hall host (or_introl eq_refl)).
    assert (sum_utilization allocation vms hosts
            <= 100 * INR (List.length hosts))%R
      by (apply IH; intros h Hh; apply Hall; now right).
    lra.
Qed.

(** What [main] computes from a request. *)
Lemma main_spec input_data :
  let hosts := input_hosts input_data in
  let vms := input_virtual_machines input_data in
  let previous :=
    bucket_dict (old_vms vms (added_vms (input_diff input_data))) in
  Dict.wf hosts -> Dict.wf vms ->
  exists st,
    for_each (place_vm (sorted_reverse hosts) previous) (sorted_reverse vms)
      (initial_state hosts) = Ok st
    /\ run_invariant hosts st (sorted_reverse vms)
    /\ let allocation :=
         map (fun kv => (fst kv, Dict.keys (snd kv))) (allocations st) in
       let n := Z.of_nat (List.length hosts) in
       let average :=
         if n >? 0
         then (sum_utilization allocation vms hosts / IZR n)%R else 0%R in
       (forall host, In host hosts ->
          (utilization_of allocation vms host <= 100)%R)
       /\ (average <= 100)%R
       /\ main input_data
          = Ok {| output_data :=
                    (allocation, migrations st, failed_allocations st);
                  average_utilization := average;
                  efficiency := curve (average / 100);
                  migration_count := Z.of_nat (List.length (migrations st));
                  migration_cost :=
                    Z.of_nat (List.length (migrations st)) ^ 2 |}.
Proof.
  intros hosts vms previous Hh Hv.
  destruct (allocate_vms_Ok hosts vms (Some previous) Hh Hv)
    as (st & Hrun & Hinv & Hres).
  exists st. split; [exact Hrun|]. split; [exact Hinv|].
  intros allocation n average.
  assert (Hheld : forall host, In host hosts ->
            exists held,
              Dict.get (allocations st) (fst host) = Some held
              /\ Dict.get allocation (fst host) = Some (Dict.keys held)
              /\ incl held vms).
  { intros host Hin.
    assert (Hk : In (fst host) (Dict.keys (allocations st))).
    { rewrite (inv_allocations_keys _ _ _ Hinv). now apply (in_map fst). }
    destruct (DictFacts.in_keys_get _ _ Hk) as [held Hget].
    exists held. split; [exact Hget|]. split.
    - unfold allocation. now rewrite get_final_allocation, Hget.
    - intros x Hx. apply (held_incl hosts st _ Hinv _ _ Hget) in Hx.
      eapply Permutation_in; [apply sorted_reverse_perm | exact Hx]. }
  assert (Hutil : forall host, In host hosts ->
            (utilization_of allocation vms host <= 100)%R).
  { intros host Hin. destruct (Hheld host Hin) as (held & Hget & Hal & Hincl).
    unfold utilization_of. rewrite Hal.
    rewrite !(total_demand_tally vms _ held Hv Hincl).
    destruct (inv_capacity _ _ _ Hinv (fst host) held (snd host) Hget)
      as [->|[Hc Hr]].
    - apply DictFacts.wf_In_get; [exact Hh | now destruct host].
    - simpl. rewrite calculate_utilization_idle. lra.
    - now apply calculate_utilization_le_100. }
  assert (Havg : (average <= 100)%R).
  { unfold average. destruct (Z.gtb_spec n 0) as [Hn|_]; [|lra].
    pose proof (sum_utilization_le allocation vms hosts Hutil) as Hsum.
    unfold n in *. rewrite <- INR_IZR_INZ in *.
    assert (0 < INR (List.length hosts))%R
      by (rewrite INR_IZR_INZ; apply IZR_lt; lia).
    apply Rmult_le_reg_r with (r := INR (List.length hosts)); [assumption|].
    unfold Rdiv. rewrite Rmult_assoc, Rinv_l by lra. lra. }
  split; [exact Hutil|]. split; [exact Havg|].
  unfold main. cbv zeta. fold hosts vms.
  rewrite (previous_of_diff_Ok vms _ Hv). cbn [bind]. fold previous.
  rewrite Hres. cbn [bind fst snd]. fold allocation.
  rewrite statistics_loop.
  - cbn [bind fst snd]. rewrite Rplus_0_l, Z.add_0_l. fold n. fold average.
    rewrite (calculate_f_le_1 (average / 100)) by lra.
    reflexivity.
  - intros host Hin. destruct (Hheld host Hin) as (held & _ & Hal & Hincl).
    exists (Dict.keys held). split; [exact Hal|].
    intros v Hin'. apply in_map_iff in Hin' as (x & <- & Hx).
    apply (in_map fst). now apply Hincl.
Qed.





Lemma default_hosts_wf : Dict.wf (input_hosts default_input).
Proof. solve_wf. Defined.

Lemma default_vms_wf : Dict.wf (input_virtual_machines default_input).
Proof. solve_wf. Defined.



(** X19. The average [main] reports is the mean over all the hosts of the
    request, idle hosts included: every host counts as used.  Without hosts
    it is 0. *)
Theorem main_average_over_all_hosts input_data :
  Dict.wf (input_hosts input_data) ->
  Dict.wf (input_virtual_machines input_data) ->
  exists r,
    main input_data = Ok r
    /\ (input_hosts input_data = [] -> average_utilization r = 0%R)
    /\ (input_hosts input_data <> [] ->
        average_utilization r
        = sum_utilization (fst (fst (output_data r)))
            (input_virtual_machines input_data) (input_hosts input_data)
          / INR (List.length (input_hosts input_data)))%R.
Proof.
  intros Hh Hv.
  destruct (main_spec input_data Hh Hv) as (st & _ & _ & _ & _ & Hmain).
  eexists. split; [exact Hmain|].
  cbn [output_data average_utilization fst].
  rewrite <- INR_IZR_INZ.
  destruct (input_hosts input_data) as [|host hosts] eqn:E.
  - split; [reflexivity | congruence].
  - split; [discriminate | intros _].
    replace (Z.of_nat (List.length (host :: hosts)) >? 0) with true
      by (symmetry; apply Z.gtb_lt; simpl; lia).
    reflexivity.
Qed.

Lemma main_average_over_all_hosts_witness :
  exists r,
    main default_input = Ok r
    /\ (input_hosts default_input = [] -> average_utilization r = 0%R)
    /\ (input_hosts default_input <> [] ->
        average_utilization r
        = sum_utilization (fst (fst (output_data r)))
            (input_virtual_machines default_input)
            (input_hosts default_input)
          / INR 2)%R.
Proof.
  exact (main_average_over_all_hosts default_input default_hosts_wf
           default_vms_wf).
Defined.

(** X20. Every migration [main] reports starts from host1: a VM has the record
    [{from, to}] exactly when the diff does not list it as added, [from] is
    host1, [to] is another host, and the VM is in the list of [to]. *)
Theorem main_migrations_from_host1 input_data :
  Dict.wf (input_hosts input_data) ->
  Dict.wf (input_virtual_machines input_data) ->
  exists r,
    main input_data = Ok r
    /\ forall v m,
         In (v, m) (snd (fst (output_data r))) <->
         from m = "host1" /\ to m <> "host1"
         /\ In v (Dict.keys (input_virtual_machines input_data))
         /\ ~ In v (added_vms (input_diff input_data))
         /\ exists names,
              In (to m, names) (fst (fst (output_data r))) /\ In v names.
Proof.
  intros Hh Hv.
  destruct (main_spec input_data Hh Hv) as (st & Hrun & Hinv & _ & _ & Hmain).
  eexists. split; [exact Hmain|]. cbn [output_data fst snd].
  destruct (migrations_loop (input_hosts input_data)
              (bucket_dict
                 (old_vms (input_virtual_machines input_data)
                    (added_vms (input_diff input_data))))
              (sorted_reverse (input_virtual_machines input_data)) Hh
              (sorted_reverse_wf _ Hv))
    as (st' & Hrun' & _ & _ & Hmoves).
  rewrite Hrun in Hrun'. injection Hrun' as <-.
  pose proof (allocations_wf _ Hh st _ Hinv) as Hwf.
  intros v m. rewrite (Hmoves v m), find_original_host_bucket.
  pose proof (old_vms_keys (input_virtual_machines input_data)
                (added_vms (input_diff input_data)) v) as Hold.
  destruct (Dict.mem v (old_vms _ _)) eqn:E.
  - apply DictFacts.mem_In in E. apply Hold in E as [E1 E2]. split.
    + intros (H1 & _ & H3 & held & Hg & Hk). injection H1 as H1.
      split; [auto|]. split; [congruence|]. split; [exact E1|].
      split; [exact E2|].
      exists (Dict.keys held). split; [|exact Hk].
      apply In_final_allocation; eauto.
    + intros (H1 & H2 & _ & _ & names & Hin & Hk).
      apply In_final_allocation in Hin as (held & Hg & ->); [|exact Hwf].
      rewrite H1. repeat split; try discriminate; try congruence. eauto.
  - apply DictFacts.mem_false in E. split.
    + intros (H1 & _). discriminate.
    + intros (_ & _ & H3 & H4 & _). exfalso. apply E. apply Hold. tauto.
Qed.

Lemma main_migrations_from_host1_witness :
  exists r,
    main default_input = Ok r
    /\ forall v m,
         In (v, m) (snd (fst (output_data r))) <->
         from m = "host1" /\ to m <> "host1"
         /\ In v ["vm1"; "vm2"; "vm3"]
         /\ ~ In v ["vm3"]
         /\ exists names,
              In (to m, names) (fst (fst (output_data r))) /\ In v names.
Proof.
  exact (main_migrations_from_host1 default_input default_hosts_wf
           default_vms_wf).
Defined.

Lemma failure_iff_no_candidate_witness :
  exists st allocation migrations failures,
    for_each (place_vm (sorted_reverse scenario_hosts) (or_empty None))
      [] (initial_state scenario_hosts) = Ok st
    /\ allocate_vms scenario_hosts scenario_vms None
       = Ok (allocation, migrations, failures)
    /\ (In "v3" failures <->
        forall host, In host scenario_hosts ->
          candidate (allocations st) "v3" (mkResources 128 1024)
            (find_original_host (or_empty None) "v3") host
          = None).
Proof.
  apply (failure_iff_no_candidate scenario_hosts scenario_vms None []
           ("v3", mkResources 128 1024)
           [("v2", mkResources 3 7); ("v1", mkResources 2 4)]
           scenario_hosts_wf scenario_vms_wf).
  - simpl. intuition discriminate.
  - reflexivity.
Defined.

(** ** The lookup of the previous host *)

(** X16. The previous host of a VM is the first host of the previous placement,
    in iteration order, whose bucket has the VM; there is none when no bucket
    has it. *)
Theorem find_original_host_first previous_allocations v :
  match find_original_host previous_allocations v with
  | Some h =>
      exists before alloc after,
        previous_allocations = before ++ (h, alloc) :: after
        /\ In v (Dict.keys alloc)
        /\ forall x, In x before -> ~ In v (Dict.keys (snd x))
  | None =>
      forall x, In x previous_allocations -> ~ In v (Dict.keys (snd x))
  end.
Proof.
  induction previous_allocations as [|[h a] p IH]; simpl; [tauto|].
  destruct (Dict.mem v a) eqn:E.
  - apply DictFacts.mem_In in E. exists [], a, p. simpl. tauto.
  - apply DictFacts.mem_false in E.
    destruct (find_original_host p v) as [h'|].
    + destruct IH as (before & alloc & after & -> & Hin & Hb).
      exists ((h, a) :: before), alloc, after. split; [reflexivity|].
      split; [exact Hin|]. intros x [<-|Hx]; [exact E | now apply Hb].
    + intros x [<-|Hx]; [exact E | now apply IH].
Qed.

(** * The run over an arbitrary arithmetic *)

(** ** The exact arithmetic is an instance *)

Lemma candidate_score_with_exact allocations vm_name vm_resources original_host
    host_name host_resources :
  candidate_score_with exact_score allocations vm_name vm_resources
    original_host host_name host_resources
  = candidate_score allocations vm_name vm_resources original_host
      host_name host_resources.
Proof.
  unfold candidate_score_with, candidate_score, exact_score.
  destruct (Dict.item allocations host_name) as [current|e]; [|reflexivity].
  cbn [bind]. destruct (_ && _); [|reflexivity].
  cbv zeta. destruct (Rgt_dec _ 100); [reflexivity|].
  now destruct (calculate_f _).
Qed.

Lemma select_host_with_exact sorted_hosts allocations vm_name vm_resources
    original_host :
  select_host_with exact_score sorted_hosts allocations vm_name vm_resources
    original_host
  = select_host sorted_hosts allocations vm_name vm_resources original_host.
Proof.
  unfold select_host_with, select_host. apply for_each_ext. intros best host.
  unfold consider_host_with, consider_host.
  now rewrite candidate_score_with_exact.
Qed.

Lemma place_vm_with_exact sorted_hosts previous_allocations st vm :
  place_vm_with exact_score sorted_hosts previous_allocations st vm
  = place_vm sorted_hosts previous_allocations st vm.
Proof.
  unfold place_vm_with, place_vm. cbv zeta.
  now rewrite select_host_with_exact.
Qed.

(** [allocate_vms] is the run over the exact arithmetic. *)
Lemma allocate_vms_with_exact hosts vms previous_allocations :
  allocate_vms_with exact_score hosts vms previous_allocations
  = allocate_vms hosts vms previous_allocations.
Proof.
  unfold allocate_vms_with, allocate_vms. cbv zeta.
  rewrite (for_each_ext _
             (place_vm (sorted_reverse hosts) (or_empty previous_allocations)));
    [reflexivity|].
  intros st vm. apply place_vm_with_exact.
Qed.

(** ** The sorted order is the only stable one *)




(** ** The selection of the host *)

Section ArithmeticSelection.

Variable score :
  resources -> resources -> string -> string -> option string -> bool ->
  result (option R).

Lemma candidate_score_with_raises allocations vm_name vm_resources original_host
    host_name host_resources e :
  In host_name (Dict.keys allocations) ->
  candidate_score_with score allocations vm_name vm_resources original_host
    host_name host_resources = Raise e ->
  raised_by score e.
Proof.
  intros Hin. destruct (DictFacts.in_keys_get _ _ Hin) as [held Hget].
  unfold candidate_score_with, Dict.item. rewrite Hget. cbn [bind]. cbv zeta.
  destruct (_ && _); [|discriminate]. intros H. unfold raised_by. eauto 10.
Qed.

(** A host that gets a score passed the capacity check of lines 100-101. *)
Lemma scored_fits allocations vm_name vm_resources original_host host s :
  scored score allocations vm_name vm_resources original_host host = Some s ->
  exists held,
    Dict.get allocations (fst host) = Some held
    /\ fits (snd host) held vm_resources = true.
Proof.
  unfold scored, candidate_score_with, Dict.item.
  destruct (Dict.get allocations (fst host)) as [held|]; [|discriminate].
  cbn [bind]. fold (new_allocation held vm_resources). unfold fits.
  intros H. exists held. split; [reflexivity|].
  destruct (_ && _); [reflexivity | discriminate].
Qed.

(** The loop over the hosts, from any point: it raises what the arithmetic
    raised, or every host was evaluated and the outcome is the chosen one. *)
Lemma select_host_with_loop allocations vm_name vm_resources original_host :
  forall todo done best0,
    incl (Dict.keys todo) (Dict.keys allocations) ->
    chosen (scored score allocations vm_name vm_resources original_host)
      done best0 ->
    match for_each
            (consider_host_with score allocations vm_name vm_resources
               original_host) todo best0 with
    | Ok best =>
        chosen (scored score allocations vm_name vm_resources original_host)
          (done ++ todo) best
        /\ forall host, In host todo ->
             candidate_score_with score allocations vm_name vm_resources
               original_host (fst host) (snd host)
             = Ok (scored score allocations vm_name vm_resources original_host
                     host)
    | Raise e => raised_by score e
    end.
Proof.
  induction todo as [|host todo IH]; intros done best0 Hincl Hch.
  - simpl. rewrite app_nil_r. split; [exact Hch | intros host []].
  - cbn [for_each]. unfold consider_host_with at 1.
    pose proof (chosen_step _ _ _ host Hch) as Hstep.
    assert (Hincl' : incl (Dict.keys todo) (Dict.keys allocations))
      by (intros k Hk; apply Hincl; now right).
    destruct (candidate_score_with score allocations vm_name vm_resources
                original_host (fst host) (snd host)) as [c|e] eqn:E.
    + assert (Hc : scored score allocations vm_name vm_resources original_host
                     host = c) by (unfold scored; now rewrite E).
      rewrite Hc in Hstep. cbn [bind].
      assert (Hnext : forall best1,
                chosen (scored score allocations vm_name vm_resources
                          original_host) (done ++ [host]) best1 ->
                match for_each
                        (consider_host_with score allocations vm_name
                           vm_resources original_host) todo best1 with
                | Ok best =>
                    chosen (scored score allocations vm_name vm_resources
                              original_host) (done ++ host :: todo) best
                    /\ forall h, In h (host :: todo) ->
                         candidate_score_with score allocations vm_name
                           vm_resources original_host (fst h) (snd h)
                         = Ok (scored score allocations vm_name vm_resources
                                 original_host h)
                | Raise e => raised_by score e
                end).
      { intros best1 H1. specialize (IH (done ++ [host]) best1 Hincl' H1).
        rewrite <- app_assoc in IH. simpl in IH.
        destruct (for_each _ todo best1); [|exact IH].
        destruct IH as [IH1 IH2]. split; [exact IH1|].
        intros h [<-|Hh]; [now rewrite Hc | now apply IH2]. }
      destruct c as [s|]; [destruct (score_gtb s (snd best0))|];
        cbn [bind]; now apply Hnext.
    + cbn [bind]. eapply candidate_score_with_raises; [|exact E].
      apply Hincl. now left.
Qed.

End ArithmeticSelection.

(** ** One iteration of the loop over the VMs *)

Section ArithmeticStep.

Variable score :
  resources -> resources -> string -> string -> option string -> bool ->
  result (option R).

Variable hosts : Dict.t resources.
Hypothesis hosts_wf : Dict.wf hosts.

Variable previous_allocations : Dict.t (Dict.t resources).

Variable st : state.
Variable done : list (string * resources).
Hypothesis Hinv : run_invariant hosts st done.

Variable vm : string * resources.
Hypothesis vm_new : ~ In (fst vm) (Dict.keys done).

Let original_host := find_original_host previous_allocations (fst vm).

(** What one iteration does, whatever the arithmetic: unless the arithmetic
    raises, every host is evaluated, the loop over the hosts returns the
    chosen one, and the VM is committed to it when its identifier is true
    and joins the failure list otherwise. *)
Lemma place_vm_with_spec :
  match place_vm_with score (sorted_reverse hosts) previous_allocations st vm
  with
  | Raise e => raised_by score e
  | Ok st' =>
      exists best,
        select_host_with score (sorted_reverse hosts) (allocations st)
          (fst vm) (snd vm) original_host = Ok best
        /\ (forall host, In host hosts ->
              candidate_score_with score (allocations st) (fst vm) (snd vm)
                original_host (fst host) (snd host)
              = Ok (scored score (allocations st) (fst vm) (snd vm)
                      original_host host))
        /\ chosen (scored score (allocations st) (fst vm) (snd vm)
                     original_host) (sorted_reverse hosts) best
        /\ run_invariant hosts st' (done ++ [vm])
        /\ if truthy (fst best)
           then exists host_name held,
               fst best = Some host_name
               /\ Dict.get (allocations st) host_name = Some held
               /\ allocations st'
                  = Dict.set (allocations st) host_name (held ++ [vm])
               /\ failed_allocations st' = failed_allocations st
           else st' = fail st (fst vm)
  end.
Proof.
  unfold place_vm_with. cbv zeta. fold original_host. unfold select_host_with.
  pose proof (select_host_with_loop score (allocations st) (fst vm) (snd vm)
                original_host (sorted_reverse hosts) [] (None, NegInf)) as Hsel.
  cbn [app] in Hsel.
  destruct (for_each _ (sorted_reverse hosts) (None, NegInf)) as [best|e].
  - destruct Hsel as [Hch Hall].
    { rewrite (inv_allocations_keys _ _ _ Hinv). intros k Hk.
      eapply Permutation_in; [apply sorted_reverse_keys_perm | exact Hk]. }
    { simpl. intros h []. }
    assert (Hall' : forall host, In host hosts ->
              candidate_score_with score (allocations st) (fst vm) (snd vm)
                original_host (fst host) (snd host)
              = Ok (scored score (allocations st) (fst vm) (snd vm)
                      original_host host)).
    { intros host Hin. apply Hall. now apply (sorted_hosts_In hosts). }
    cbn [bind]. pose proof Hch as Hch0.
    destruct best as [[name|] [|s]]; simpl in Hch; try contradiction;
      cbn [fst truthy].
    + destruct Hch as (before & host & after & Hhosts & Hname & Hcand & _).
      destruct (String.eqb_spec name "") as [->|Hne]; cbn [negb].
      * exists (Some "", Finite s). cbn [fst truthy String.eqb negb].
        split; [reflexivity|]. split; [exact Hall'|]. split; [exact Hch0|].
        split; [now apply fail_invariant | reflexivity].
      * apply scored_fits in Hcand as (held & Hget & Hfits).
        rewrite Hname in Hget.
        assert (Hcap : Dict.get hosts name = Some (snd host)).
        { rewrite <- Hname. apply (sorted_hosts_get hosts hosts_wf).
          rewrite Hhosts. apply in_or_app. right. now left. }
        destruct (commit_invariant hosts hosts_wf st done Hinv vm vm_new name
                    held (snd host) Hget Hcap Hfits original_host)
          as (st' & Hc & Hi & Ha & Hf).
        rewrite Hc. exists (Some name, Finite s). cbn [fst truthy].
        apply String.eqb_neq in Hne. rewrite Hne. cbn [negb].
        split; [reflexivity|]. split; [exact Hall'|]. split; [exact Hch0|].
        split; [exact Hi|]. exists name, held. auto.
    + exists (None, NegInf). cbn [fst truthy].
      split; [reflexivity|]. split; [exact Hall'|]. split; [exact Hch0|].
      split; [now apply fail_invariant | reflexivity].
  - apply Hsel.
    + rewrite (inv_allocations_keys _ _ _ Hinv). intros k Hk.
      eapply Permutation_in; [apply sorted_reverse_keys_perm | exact Hk].
    + simpl. intros h [].
Qed.

(** An iteration keeps the VMs already in the failure list and the VMs a
    host already holds. *)
Lemma place_vm_with_keeps st' v :
  place_vm_with score (sorted_reverse hosts) previous_allocations st vm = Ok st' ->
  (In v (failed_allocations st) -> In v (failed_allocations st'))
  /\ (forall h held,
        Dict.get (allocations st) h = Some held -> In v (Dict.keys held) ->
        exists held',
          Dict.get (allocations st') h = Some held' /\ In v (Dict.keys held')).
Proof.
  intros Hplace. pose proof place_vm_with_spec as H. rewrite Hplace in H.
  destruct H as (best & _ & _ & _ & _ & Hst).
  destruct (truthy (fst best)).
  - destruct Hst as (name & held0 & _ & Hget0 & Halloc & Hfailed).
    rewrite Hfailed. split; [tauto|]. intros h held Hget Hin.
    rewrite Halloc, get_committed.
    destruct (String.eqb_spec h name) as [->|Hne]; [|eauto].
    exists (held0 ++ [vm]). split; [reflexivity|].
    rewrite DictFacts.keys_app. apply in_or_app. left. congruence.
  - subst st'. simpl. split; [|eauto]. intros Hin. apply in_or_app. now left.
Qed.

End ArithmeticStep.

(** ** Whole runs *)

(** A VM in the failure list is in no host's list. *)
Lemma failed_not_placed hosts st done v h held :
  Dict.wf hosts ->
  run_invariant hosts st done ->
  In v (failed_allocations st) ->
  Dict.get (allocations st) h = Some held -> ~ In v (Dict.keys held).
Proof.
  intros Hwf Hinv Hf Hget Hin.
  rewrite (inv_failed _ _ _ Hinv) in Hf.
  apply in_map_iff in Hf as (x & <- & Hx). apply filter_In in Hx as [_ Hx].
  apply negb_true_iff in Hx.
  assert (placed (allocations st) (fst x) = true); [|congruence].
  apply placed_get; [apply (allocations_wf hosts Hwf st _ Hinv) | eauto].
Qed.

Section ArithmeticRun.

Variable score :
  resources -> resources -> string -> string -> option string -> bool ->
  result (option R).

Variable hosts : Dict.t resources.
Hypothesis hosts_wf : Dict.wf hosts.

Variable previous_allocations : Dict.t (Dict.t resources).

(** The rest of a run keeps a VM where it is. *)
Lemma run_with_keeps v :
  forall todo done st,
    run_invariant hosts st done ->
    Dict.wf (done ++ todo) ->
    match for_each (place_vm_with score (sorted_reverse hosts)
                      previous_allocations) todo st with
    | Raise e => raised_by score e
    | Ok st' =>
        (In v (failed_allocations st) -> In v (failed_allocations st'))
        /\ (forall h held,
              Dict.get (allocations st) h = Some held ->
              In v (Dict.keys held) ->
              exists held',
                Dict.get (allocations st') h = Some held'
                /\ In v (Dict.keys held'))
    end.
Proof.
  induction todo as [|vm todo IH]; intros done st Hinv Hnd.
  - simpl. eauto.
  - assert (Hnew : ~ In (fst vm) (Dict.keys done))
      by (eapply vm_not_done; eauto).
    cbn [for_each].
    pose proof (place_vm_with_spec score hosts hosts_wf previous_allocations
                  st done Hinv vm Hnew) as Hspec.
    pose proof (place_vm_with_keeps score hosts hosts_wf previous_allocations
                  st done Hinv vm Hnew) as Hkeep.
    destruct (place_vm_with score (sorted_reverse hosts) previous_allocations
                st vm) as [st1|e]; [|exact Hspec].
    cbn [bind].
    destruct Hspec as (_ & _ & _ & _ & Hinv1 & _).
    destruct (Hkeep st1 v eq_refl) as [Hf1 Hh1].
    specialize (IH (done ++ [vm]) st1 Hinv1).
    rewrite <- app_assoc in IH. specialize (IH Hnd).
    destruct (for_each _ todo st1) as [st'|e]; [|exact IH].
    destruct IH as [Hf Hh]. split; [auto|].
    intros h held Hget Hin.
    destruct (Hh1 h held Hget Hin) as (held1 & Hget1 & Hin1). eauto.
Qed.

(** A run, turn by turn: unless the arithmetic raises, each VM finds the
    state the VMs before it have left, the loop over the hosts returns the
    chosen host, and the VM is, when the run ends, with the host returned or
    in the failure list. *)
Lemma run_with_turns :
  forall todo done st,
    run_invariant hosts st done ->
    Dict.wf (done ++ todo) ->
    match for_each (place_vm_with score (sorted_reverse hosts)
                      previous_allocations) todo st with
    | Raise e => raised_by score e
    | Ok st_end =>
        run_invariant hosts st_end (done ++ todo)
        /\ forall before vm after,
             todo = before ++ vm :: after ->
             let original_host :=
               find_original_host previous_allocations (fst vm) in
             exists st_turn best,
               for_each (place_vm_with score (sorted_reverse hosts)
                           previous_allocations) before st = Ok st_turn
               /\ select_host_with score (sorted_reverse hosts)
                    (allocations st_turn) (fst vm) (snd vm) original_host
                  = Ok best
               /\ (forall host, In host hosts ->
                     candidate_score_with score (allocations st_turn) (fst vm)
                       (snd vm) original_host (fst host) (snd host)
                     = Ok (scored score (allocations st_turn) (fst vm) (snd vm)
                             original_host host))
               /\ chosen (scored score (allocations st_turn) (fst vm) (snd vm)
                            original_host) (sorted_reverse hosts) best
               /\ if truthy (fst best)
                  then exists host_name held,
                      fst best = Some host_name
                      /\ Dict.get (allocations st_end) host_name = Some held
                      /\ In (fst vm) (Dict.keys held)
                  else In (fst vm) (failed_allocations st_end)
    end.
Proof.
  induction todo as [|vm0 todo IH]; intros done st Hinv Hnd.
  - simpl. rewrite app_nil_r. split; [exact Hinv|].
    intros before vm after E. now destruct before.
  - assert (Hnew : ~ In (fst vm0) (Dict.keys done))
      by (eapply vm_not_done; eauto).
    cbn [for_each].
    pose proof (place_vm_with_spec score hosts hosts_wf previous_allocations
                  st done Hinv vm0 Hnew) as Hspec.
    destruct (place_vm_with score (sorted_reverse hosts) previous_allocations
                st vm0) as [st1|e] eqn:Hplace; [|exact Hspec].
    cbn [bind].
    destruct Hspec as (best0 & Hsel0 & Hall0 & Hch0 & Hinv1 & Hst1).
    assert (Hnd1 : Dict.wf ((done ++ [vm0]) ++ todo))
      by now rewrite <- app_assoc.
    specialize (IH (done ++ [vm0]) st1 Hinv1 Hnd1).
    pose proof (run_with_keeps (fst vm0) todo (done ++ [vm0]) st1 Hinv1 Hnd1)
      as Hkeep.
    destruct (for_each _ todo st1) as [st_end|e] eqn:Hrest; [|exact IH].
    destruct IH as [Hinv_end Hturns]. destruct Hkeep as [Hkf Hkh].
    rewrite <- app_assoc in Hinv_end. split; [exact Hinv_end|].
    intros [|b before] vm after E; cbn [app] in E; injection E as -> ->.
    + cbv zeta. exists st, best0. cbn [for_each].
      split; [reflexivity|]. split; [exact Hsel0|]. split; [exact Hall0|].
      split; [exact Hch0|].
      destruct (truthy (fst best0)).
      * destruct Hst1 as (name & held & Hb & Hget & Halloc & _).
        destruct (Hkh name (held ++ [vm])) as (held' & Hget' & Hin').
        { rewrite Halloc. apply DictFacts.get_set_same. }
        { rewrite DictFacts.keys_app. apply in_or_app. right. now left. }
        exists name, held'. auto.
      * apply Hkf. subst st1. simpl. apply in_or_app. right. now left.
    + cbv zeta.
      destruct (Hturns before vm after eq_refl)
        as (st_turn & best & Hrun & H).
      exists st_turn, best. cbn [for_each]. rewrite Hplace. cbn [bind].
      split; [exact Hrun | exact H].
Qed.

End ArithmeticRun.

(** [allocate_vms_with] raises what the arithmetic raised, or returns the
    bookkeeping of the state the loop over the VMs ends in. *)
Lemma allocate_vms_with_spec score hosts vms previous_allocations :
  Dict.wf hosts -> Dict.wf vms ->
  match for_each (place_vm_with score (sorted_reverse hosts)
                    (or_empty previous_allocations))
          (sorted_reverse vms) (initial_state hosts) with
  | Raise e =>
      allocate_vms_with score hosts vms previous_allocations = Raise e
      /\ raised_by score e
  | Ok st =>
      allocate_vms_with score hosts vms previous_allocations
      = Ok (map (fun kv => (fst kv, Dict.keys (snd kv))) (allocations st),
            migrations st, failed_allocations st)
      /\ run_invariant hosts st (sorted_reverse vms)
  end.
Proof.
  intros Hh Hv.
  pose proof (run_with_turns score hosts Hh (or_empty previous_allocations)
                (sorted_reverse vms) [] (initial_state hosts)
                (initial_invariant hosts Hh) (sorted_reverse_wf _ Hv)) as Hrun.
  unfold allocate_vms_with. cbv zeta.
  destruct (for_each _ (sorted_reverse vms) (initial_state hosts)) as [st|e].
  - destruct Hrun as [Hinv _]. cbn [app] in Hinv. cbn [bind].
    split; [|exact Hinv].
    rewrite final_allocations_map; [reflexivity|].
    apply (allocations_wf hosts Hh st _ Hinv).
  - split; [reflexivity | exact Hrun].
Qed.

(** ** Order of iteration and choice of the host *)



(** ** The keys and the lists of the returned allocation *)

(** C10. Whatever the arithmetic of the scores, a run that returns returns
    an allocation whose keys are exactly the identifiers of the input hosts,
    in the order of the input, also for hosts that received no VM; the list
    of a host holds exactly the VMs committed to that host, in the order in
    which the VMs are processed, which is the order of the commits. *)
Theorem allocation_keys score hosts vms previous_allocations :
  Dict.wf hosts -> Dict.wf vms ->
  match allocate_vms_with score hosts vms previous_allocations with
  | Raise e => raised_by score e
  | Ok (allocation, _, _) =>
      Dict.keys allocation = Dict.keys hosts
      /\ forall h names,
           In (h, names) allocation ->
           (forall v,
              In v names <->
              committed score hosts vms (or_empty previous_allocations) v h)
           /\ names = filter (fun v => existsb (String.eqb v) names)
                        (Dict.keys (sorted_reverse vms))
  end.
Proof.
  intros Hh Hv.
  pose proof (run_with_turns score hosts Hh (or_empty previous_allocations)
                (sorted_reverse vms) [] (initial_state hosts)
                (initial_invariant hosts Hh) (sorted_reverse_wf _ Hv)) as Hrun.
  pose proof (allocate_vms_with_spec score hosts vms previous_allocations Hh Hv)
    as Hspec.
  destruct (for_each _ (sorted_reverse vms) (initial_state hosts))
    as [st_end|e]; [|destruct Hspec as [-> _]; exact Hrun].
  destruct Hspec as [-> Hinv]. destruct Hrun as [_ Hturns]. cbv iota beta.
  pose proof (allocations_wf hosts Hh st_end _ Hinv) as Hwf.
  split.
  { unfold Dict.keys. rewrite map_map. simpl.
    apply (inv_allocations_keys _ _ _ Hinv). }
  intros h names Hin.
  apply In_final_allocation in Hin as (held & Hget & ->); [|exact Hwf].
  split.
  - intros v. split.
    + intros Hv_in. apply in_map_iff in Hv_in as (x & <- & Hx).
      assert (Hheld : In (fst x) (Dict.keys held)) by now apply (in_map fst).
      assert (Hx' : In x (sorted_reverse vms)).
      { rewrite (inv_held _ _ _ Hinv _ _ Hget) in Hx.
        now apply filter_In in Hx. }
      destruct (in_split _ _ Hx') as (done & rest & Hsplit).
      destruct (Hturns done x rest Hsplit)
        as (st & best & Hdone & Hsel & _ & _ & Hout).
      destruct best as [best_host best_score]. cbn [fst] in Hout.
      destruct (truthy best_host) eqn:Htruthy.
      * destruct Hout as (h' & held' & -> & Hget' & Hin').
        assert (h = h')
          by (eapply (inv_disjoint _ _ _ Hinv h h'); eauto).
        subst h'. exists done, (snd x), rest, st, best_score.
        rewrite <- surjective_pairing.
        split; [exact Hsplit|]. split; [exact Hdone|]. split; [exact Hsel|].
        intros ->. discriminate.
      * exfalso.
        exact (failed_not_placed hosts st_end _ (fst x) h held Hh Hinv Hout
                 Hget Hheld).
    + intros (done & r & rest & st & best_score & Hsplit & Hdone & Hsel & Hne).
      destruct (Hturns done (v, r) rest Hsplit)
        as (st' & best & Hdone' & Hsel' & _ & _ & Hout).
      cbn [fst snd] in *.
      assert (st' = st) by congruence. subst st'.
      assert (best = (Some h, best_score)) by congruence. subst best.
      cbn [fst truthy] in Hout. apply String.eqb_neq in Hne.
      rewrite Hne in Hout. cbn [negb] in Hout.
      destruct Hout as (h' & held' & Hb & Hget' & Hin').
      injection Hb as <-. congruence.
  - rewrite (inv_held _ _ _ Hinv _ _ Hget) at 1.
    rewrite (keys_filter_fst (fun v => Dict.mem v held)).
    apply filter_ext. intros v. apply eq_true_iff_eq.
    now rewrite DictFacts.mem_In, existsb_eqb_In.
Qed.

Lemma allocation_keys_witness :
  exists allocation migrations failures,
    allocate_vms scenario_hosts scenario_vms None
    = Ok (allocation, migrations, failures)
    /\ Dict.keys allocation = ["A"; "B"]
    /\ forall h names,
         In (h, names) allocation ->
         (forall v,
            In v names <->
            committed exact_score scenario_hosts scenario_vms [] v h)
         /\ names = filter (fun v => existsb (String.eqb v) names)
                      (Dict.keys (sorted_reverse scenario_vms)).
Proof.
  pose proof (allocation_keys exact_score scenario_hosts scenario_vms None
                scenario_hosts_wf scenario_vms_wf) as H.
  destruct (allocate_vms_Ok scenario_hosts scenario_vms None
              scenario_hosts_wf scenario_vms_wf) as (st & _ & _ & Hres).
  rewrite allocate_vms_with_exact, Hres in H.
  do 3 eexists. split; [exact Hres | exact H].
Defined.

(** ** A run that sticks *)




